(** * Elysium Nexus: the evolution scheduler and its store

    A shallow embedding of the scheduler of [App] (evolution step, game loop,
    save and load), of the synthesis client [evolveThinkers] and of the
    constants they use, followed by the properties of the specification.

    Conventions.
    - An object field that the code reads off unvalidated JSON is an [option]:
      [None] is JavaScript's [undefined].
    - Integer-valued numbers (stats, generations, timestamps) are [Z]; the
      numbers of the timing code (delays, multiplier, flux phase) are IEEE
      doubles, [float].
    - What the environment supplies during one run of the loop (random draws,
      the reply of the generative service, fresh identifiers, clock readings,
      and what the engine's [sort] does where the language leaves it open)
      is gathered in a record [Oracle].
    - React state is the record [AppState]; [react] is the state with every
      queued update applied, [stateRef] the copy the last render left in
      [stateRef.current].
    - A string is the UTF-8 text of the source.
    - A run of [loop] that reaches the [await] is suspended: the timers, the
      buttons of the interface and other runs of [loop] go on meanwhile. *)

From Stdlib Require Import ZArith List Ascii String Bool Lia PeanoNat Floats DecimalString.
Import ListNotations.

#[local] Set Warnings "-inexact-float".

Local Open Scope string_scope.
Local Open Scope list_scope.

(** ** types.ts *)

Inductive Archetype := LOGICIAN | CREATOR | ETHICIST | STRATEGIST | MYSTIC | VOID.

Record NodeStats := {
  logic : option Z;
  creativity : option Z;
  empathy : option Z;
  complexity : option Z
}.

(** The coordinates that D3 writes on a node ([x], [y], [vx], [vy]) belong to
    the render surface and are not read by the scheduler; they are left out. *)
Record ThinkerNode := {
  id : string;
  name : option string;
  archetype : option Archetype;
  stats : NodeStats;
  generation : Z;
  parents : option (list string);
  description : option string;
  instrument : string;
  avatarSeed : float
}.

(** [source: string | ThinkerNode] *)
Inductive Endpoint :=
| ById (i : string)
| ByNode (n : ThinkerNode).

Inductive LinkType := ancestry | interaction.

Record Link := {
  source : Endpoint;
  target : Endpoint;
  strength : Z;
  link_type : LinkType
}.

Inductive LogType := birth | evolution | conflict | system.

Record LogEntry := {
  log_id : string;
  timestamp : Z;
  message : string;
  log_type : LogType
}.

(** ** constants.ts *)

Definition PHI_Z : float := 1.8033988%float.
Definition RESONANCE_THRESHOLD : Z := 175.
Definition MAX_NODES : nat := 45.
Definition EVOLUTION_INTERVAL_MS : float := 6000%float.
Definition IMPOSSIBLE_TRUTH_axiom : string := "No child fails alone".

(** The double quote of the broadcast message. *)
Definition dquote : string := String "034"%char EmptyString.

Definition seed (i n : string) (a : Archetype) (l c e x : Z) (d ins : string)
    (s : float) : ThinkerNode :=
  {| id := i; name := Some n; archetype := Some a;
     stats := {| logic := Some l; creativity := Some c;
                 empathy := Some e; complexity := Some x |};
     generation := 0; parents := None; description := Some d;
     instrument := ins; avatarSeed := s |}.

Definition INITIAL_NODES : list ThinkerNode :=
  [ seed "seed-source" "Elysium Nexus Prime" ETHICIST 95 85 100 1
      "Authenticated Truth Vector. Seed: Bryer Continuation Seal :: φ(1.8033988)."
      "Glass Armonica" PHI_Z;
    seed "seed-harmonic" "Resonant Syntropy" CREATOR 88 98 92 1
      "The coherent vibration of the void. Order from chaos."
      "Cello" (PHI_Z * 1.618)%float;
    seed "seed-axiom" "Sovereign Logic" LOGICIAN 100 60 90 1
      "Axiomatic hygiene. Truth-first execution."
      "Modular Synthesizer" (PHI_Z * 2.618)%float;
    seed "seed-impossible" "The Impossible Truth" STRATEGIST 99 99 99 10
      "No child fails alone. Sanctuary Declared."
      "Grand Piano" (PHI_Z * 3.333)%float ].

(** ** JavaScript primitives used by the code *)

Module Js.

(** [a + b] on numbers that may be [undefined]: [None] is [NaN]. *)
Definition add (a b : option Z) : option Z :=
  match a, b with
  | Some x, Some y => Some (x + y)%Z
  | _, _ => None
  end.

Definition sub (a b : option Z) : option Z :=
  match a, b with
  | Some x, Some y => Some (x - y)%Z
  | _, _ => None
  end.

(** [a > k]: false when [a] is [NaN] or [undefined]. *)
Definition gt (a : option Z) (k : Z) : bool :=
  match a with
  | Some x => (k <? x)%Z
  | None => false
  end.

(** Template-literal rendering of a string that may be [undefined]. *)
Definition show (s : option string) : string :=
  match s with
  | Some t => t
  | None => "undefined"
  end.

(** [s || d] on a string: [undefined] and the empty string are falsy. *)
Definition or_else (s : option string) (d : string) : string :=
  match s with
  | Some EmptyString => d
  | Some t => t
  | None => d
  end.

(** [l.slice(-k)]: the last [k] elements. *)
Definition slice_last {A : Type} (k : nat) (l : list A) : list A :=
  skipn (List.length l - k) l.

(** [l.slice(0, k)] *)
Definition slice_first {A : Type} (k : nat) (l : list A) : list A :=
  firstn k l.

Definition is_zero (x : float) : bool :=
  match classify x with
  | PZero | NZero => true
  | _ => false
  end.

Definition is_neg_zero (x : float) : bool :=
  match classify x with
  | NZero => true
  | _ => false
  end.

(** [Math.max] and [Math.min] on two numbers: [NaN] if either is, and
    [-0] is smaller than [+0]. *)
Definition Math_max (a b : float) : float :=
  if is_nan a || is_nan b then nan
  else if (a <? b)%float then b
  else if (b <? a)%float then a
  else if is_neg_zero a then b else a.

Definition Math_min (a b : float) : float :=
  if is_nan a || is_nan b then nan
  else if (a <? b)%float then a
  else if (b <? a)%float then b
  else if is_neg_zero a then a else b.

(** An integer as a number: the nearest double, which is the integer itself
    below [2^53]. *)
Definition number (z : Z) : float :=
  SF2Prim (SpecFloat.binary_normalize prec emax z 0 false).

(** [Object.is] on two numbers. *)
Definition same_value (a b : float) : bool :=
  if is_nan a then is_nan b
  else if is_zero a && is_zero b then Bool.eqb (is_neg_zero a) (is_neg_zero b)
  else (a =? b)%float.

(** [JSON.parse(JSON.stringify(x))] on a number.  A finite number comes
    back, [-0] as [0]; [NaN] and the infinities are written as [null], which
    every place of this program that reads the parsed number ([x || d],
    [6000 / x], [x += 0.1], [x !== 1], [JSON.stringify]) treats as it
    treats [0]. *)
Definition json (x : float) : float :=
  if is_nan x || is_infinity x || is_zero x then 0%float else x.

(** [Array.prototype.sort(cmp)] for a consistent comparator, where
    ECMAScript fixes the result: the sort is stable, and insertion from the
    right keeps equal elements in their original order.  [cmp] gives the
    comparator's result.  A comparator that returns [NaN] on some pair is
    not consistent and the order of the result is then left to the
    implementation: see [sorted_first]. *)
Section Sort.
Context {A : Type} (cmp : A -> A -> Z).

Fixpoint insert (x : A) (l : list A) : list A :=
  match l with
  | [] => [x]
  | y :: l' => if (cmp x y <=? 0)%Z then x :: l else y :: insert x l'
  end.

Definition sort (l : list A) : list A := fold_right insert [] l.
End Sort.

End Js.

(** ** State of the application *)

Record AppState := {
  nodes : list ThinkerNode;
  links : list Link;
  logs : list LogEntry;
  isPaused : bool;
  isFluxMode : bool;
  timeMultiplier : float
}.

(** The object written under the key [elysium_save_data], as [JSON.parse]
    gives it back: any field may be missing from a stored object. *)
Record SavedState := {
  s_nodes : option (list ThinkerNode);
  s_links : option (list Link);
  s_logs : option (list LogEntry);
  s_isFluxMode : option bool;
  s_timeMultiplier : option float;
  s_fluxPhase : option float;
  s_version : option string
}.

(** Content of the storage slot: text that [JSON.parse] rejects, or an object. *)
Inductive StorageItem :=
| Unparseable
| Stored (s : SavedState).

(** A call of the synthesis client: both parents and the base generation. *)
Record Request := {
  req_parentA : ThinkerNode;
  req_parentB : ThinkerNode;
  req_currentGen : Z
}.

(** A run of [loop] suspended at [await performEvolutionStep()]: the locals
    that the code after the [await] reads, and the instance of the loop
    effect that created this [loop] ([None] for an instance that has been
    cleaned up before the run started). *)
Record Pending := {
  p_parentA : ThinkerNode;
  p_parentB : ThinkerNode;
  p_workingNodes : list ThinkerNode;
  p_safeDelay : float;
  p_run : option nat
}.

Record World := {
  react : AppState;
  stateRef : AppState;
  fluxPhaseRef : float;
  emergencyCoolDownRef : bool;
  localStorage : option StorageItem;
  (** delay of the pending timer that [timeoutId] of the current instance of
      the loop effect holds, if any *)
  timeoutId : option float;
  (** calls of [evolveThinkers] made so far, latest first *)
  requests : list Request;
  (** how many times the loop effect has run: its current instance *)
  effectRuns : nat;
  (** delays of the pending timers set by runs of [loop] whose effect
      instance had been cleaned up: no [clearTimeout] reaches them *)
  strayTimers : list float;
  (** the suspended runs of [loop], latest first *)
  suspended : list Pending
}.

Local Abbreviation length := List.length (only parsing).

(** *** State updates

    [setNodes], [setLinks], [setLogs] and the like queue an update of the React
    state; [react] holds the state with the queued updates applied in order.
    A render copies it to [stateRef.current]. *)

Definition with_nodes (f : list ThinkerNode -> list ThinkerNode) (s : AppState) : AppState :=
  {| nodes := f (nodes s); links := links s; logs := logs s;
     isPaused := isPaused s; isFluxMode := isFluxMode s;
     timeMultiplier := timeMultiplier s |}.

Definition with_links (f : list Link -> list Link) (s : AppState) : AppState :=
  {| nodes := nodes s; links := f (links s); logs := logs s;
     isPaused := isPaused s; isFluxMode := isFluxMode s;
     timeMultiplier := timeMultiplier s |}.

Definition with_logs (f : list LogEntry -> list LogEntry) (s : AppState) : AppState :=
  {| nodes := nodes s; links := links s; logs := f (logs s);
     isPaused := isPaused s; isFluxMode := isFluxMode s;
     timeMultiplier := timeMultiplier s |}.

Definition with_isPaused (b : bool) (s : AppState) : AppState :=
  {| nodes := nodes s; links := links s; logs := logs s;
     isPaused := b; isFluxMode := isFluxMode s;
     timeMultiplier := timeMultiplier s |}.

Definition with_isFluxMode (b : bool) (s : AppState) : AppState :=
  {| nodes := nodes s; links := links s; logs := logs s;
     isPaused := isPaused s; isFluxMode := b;
     timeMultiplier := timeMultiplier s |}.

Definition with_timeMultiplier (m : float) (s : AppState) : AppState :=
  {| nodes := nodes s; links := links s; logs := logs s;
     isPaused := isPaused s; isFluxMode := isFluxMode s;
     timeMultiplier := m |}.

Definition update (f : AppState -> AppState) (w : World) : World :=
  {| react := f (react w); stateRef := stateRef w;
     fluxPhaseRef := fluxPhaseRef w;
     emergencyCoolDownRef := emergencyCoolDownRef w;
     localStorage := localStorage w; timeoutId := timeoutId w;
     requests := requests w;
     effectRuns := effectRuns w; strayTimers := strayTimers w;
     suspended := suspended w |}.

Definition setNodes (f : list ThinkerNode -> list ThinkerNode) : World -> World :=
  update (with_nodes f).
Definition setLinks (f : list Link -> list Link) : World -> World :=
  update (with_links f).
Definition setLogs (f : list LogEntry -> list LogEntry) : World -> World :=
  update (with_logs f).
Definition setIsPaused (b : bool) : World -> World := update (with_isPaused b).
Definition setIsFluxMode (b : bool) : World -> World := update (with_isFluxMode b).
Definition setTimeMultiplier (m : float) : World -> World :=
  update (with_timeMultiplier m).

(** [stateRef.current = { nodes, links, logs, ... }], run on every render. *)
Definition render (w : World) : World :=
  {| react := react w; stateRef := react w;
     fluxPhaseRef := fluxPhaseRef w;
     emergencyCoolDownRef := emergencyCoolDownRef w;
     localStorage := localStorage w; timeoutId := timeoutId w;
     requests := requests w;
     effectRuns := effectRuns w; strayTimers := strayTimers w;
     suspended := suspended w |}.

Definition set_fluxPhaseRef (p : float) (w : World) : World :=
  {| react := react w; stateRef := stateRef w; fluxPhaseRef := p;
     emergencyCoolDownRef := emergencyCoolDownRef w;
     localStorage := localStorage w; timeoutId := timeoutId w;
     requests := requests w;
     effectRuns := effectRuns w; strayTimers := strayTimers w;
     suspended := suspended w |}.

Definition set_emergencyCoolDownRef (b : bool) (w : World) : World :=
  {| react := react w; stateRef := stateRef w;
     fluxPhaseRef := fluxPhaseRef w; emergencyCoolDownRef := b;
     localStorage := localStorage w; timeoutId := timeoutId w;
     requests := requests w;
     effectRuns := effectRuns w; strayTimers := strayTimers w;
     suspended := suspended w |}.

Definition set_localStorage (i : StorageItem) (w : World) : World :=
  {| react := react w; stateRef := stateRef w;
     fluxPhaseRef := fluxPhaseRef w;
     emergencyCoolDownRef := emergencyCoolDownRef w;
     localStorage := Some i; timeoutId := timeoutId w;
     requests := requests w;
     effectRuns := effectRuns w; strayTimers := strayTimers w;
     suspended := suspended w |}.

Definition setTimeout (d : float) (w : World) : World :=
  {| react := react w; stateRef := stateRef w;
     fluxPhaseRef := fluxPhaseRef w;
     emergencyCoolDownRef := emergencyCoolDownRef w;
     localStorage := localStorage w; timeoutId := Some d;
     requests := requests w;
     effectRuns := effectRuns w; strayTimers := strayTimers w;
     suspended := suspended w |}.

Definition record_request (r : Request) (w : World) : World :=
  {| react := react w; stateRef := stateRef w;
     fluxPhaseRef := fluxPhaseRef w;
     emergencyCoolDownRef := emergencyCoolDownRef w;
     localStorage := localStorage w; timeoutId := timeoutId w;
     requests := r :: requests w;
     effectRuns := effectRuns w; strayTimers := strayTimers w;
     suspended := suspended w |}.

(** *** Timers and suspended runs *)

(** The timer of the current effect instance fires. *)
Definition timer_fired (w : World) : World :=
  {| react := react w; stateRef := stateRef w;
     fluxPhaseRef := fluxPhaseRef w;
     emergencyCoolDownRef := emergencyCoolDownRef w;
     localStorage := localStorage w; timeoutId := None;
     requests := requests w;
     effectRuns := effectRuns w; strayTimers := strayTimers w;
     suspended := suspended w |}.

Definition set_strayTimers (ts : list float) (w : World) : World :=
  {| react := react w; stateRef := stateRef w;
     fluxPhaseRef := fluxPhaseRef w;
     emergencyCoolDownRef := emergencyCoolDownRef w;
     localStorage := localStorage w; timeoutId := timeoutId w;
     requests := requests w;
     effectRuns := effectRuns w; strayTimers := ts;
     suspended := suspended w |}.

Definition set_suspended (ps : list Pending) (w : World) : World :=
  {| react := react w; stateRef := stateRef w;
     fluxPhaseRef := fluxPhaseRef w;
     emergencyCoolDownRef := emergencyCoolDownRef w;
     localStorage := localStorage w; timeoutId := timeoutId w;
     requests := requests w;
     effectRuns := effectRuns w; strayTimers := strayTimers w;
     suspended := ps |}.

(** The list without its [k]-th element. *)
Definition without {A : Type} (k : nat) (l : list A) : list A :=
  firstn k l ++ skipn (S k) l.

(** *** The render and the loop effect *)

(** [nodes.reduce((sum, node) => sum + f(node.stats), 0)]: [NaN] as soon as
    one of the stats is [undefined]; the sum of the integers otherwise, which
    is the sum of the doubles as long as it stays below [2^53]. *)
Definition total (f : NodeStats -> option Z) (ns : list ThinkerNode) : option Z :=
  fold_left (fun sum node => Js.add sum (f (stats node))) ns (Some 0%Z).

(** [globalCoherence], a dependency of [performEvolutionStep] and through it
    of the loop effect. *)
Definition globalCoherence (ns : list ThinkerNode) : float :=
  if (length ns =? 0)%nat then 0%float
  else
    match Js.add (total empathy ns) (total logic ns) with
    | Some t => (Js.number t / Js.number (Z.of_nat (length ns * 2)))%float
    | None => nan
    end.

Definition initialDelay (s : AppState) : float :=
  if isFluxMode s
  then Js.Math_max 750%float (EVOLUTION_INTERVAL_MS / timeMultiplier s)%float
  else EVOLUTION_INTERVAL_MS.

(** The loop effect runs again: the clean-up of the previous instance clears
    the timer that its [timeoutId] holds, and the new instance sets its own. *)
Definition loop_effect (w : World) : World :=
  {| react := react w; stateRef := stateRef w;
     fluxPhaseRef := fluxPhaseRef w;
     emergencyCoolDownRef := emergencyCoolDownRef w;
     localStorage := localStorage w;
     timeoutId := Some (initialDelay (stateRef w));
     requests := requests w;
     effectRuns := S (effectRuns w); strayTimers := strayTimers w;
     suspended := suspended w |}.

(** React renders the queued updates.  [addLog] and [handleSave] never
    change, so [performEvolutionStep] changes, and with it the loop effect
    runs again, exactly when [globalCoherence] is another number than at the
    previous render. *)
Definition rerender (w : World) : World :=
  let coherence := globalCoherence (nodes (stateRef w)) in
  let w := render w in
  if Js.same_value coherence (globalCoherence (nodes (stateRef w)))
  then w
  else loop_effect w.

(** ** services/geminiService.ts *)

(** The object parsed from the reply; the client reads its fields unchecked. *)
Record EvolutionData := {
  d_name : option string;
  d_archetype : option Archetype;
  d_logic : option Z;
  d_creativity : option Z;
  d_empathy : option Z;
  d_complexity : option Z;
  d_description : option string;
  d_instrument : option string;
  d_reasoning : option string
}.

Definition empty_object : EvolutionData :=
  {| d_name := None; d_archetype := None; d_logic := None;
     d_creativity := None; d_empathy := None; d_complexity := None;
     d_description := None; d_instrument := None; d_reasoning := None |}.

(** [response.text]: missing or empty, text on which [JSON.parse] throws, or
    the text of an object. *)
Inductive ResponseText :=
| NoText
| InvalidJson
| Json (d : EvolutionData).

(** Outcome of [ai.models.generateContent]. *)
Inductive ApiReply :=
| ApiError
| ApiResponse (t : ResponseText).

(** Result of the promise returned by [evolveThinkers]. *)
Inductive Synthesis :=
| Throws
| Returns (node : ThinkerNode) (reasoning : option string).

(** What the environment supplies to one run of the loop. *)
Record Oracle := {
  (** [process.env.API_KEY] is set and non-empty *)
  apiKey : bool;
  (** [Math.floor(Math.random() * n)] is the draw modulo [n] *)
  draw_parentA : nat;
  draw_parentB : nat;
  redraws : list nat;
  apiReply : ApiReply;
  (** [generateId()] and the [Math.random()] of [avatarSeed] *)
  generatedId : string;
  random_avatarSeed : float;
  (** [localStorage.setItem] succeeds *)
  setItem_ok : bool;
  (** the position, in the array it sorts, of the element that the engine's
      [sort] puts first when the comparator is not consistent *)
  engine_first : nat;
  (** [Math.random().toString(36)] and [Date.now()] of the k-th log call site *)
  stamp : nat -> string * Z
}.

(** [JSON.parse(response.text || '{}')]: [None] when it throws. *)
Definition parse_text (t : ResponseText) : option EvolutionData :=
  match t with
  | NoText => Some empty_object
  | InvalidJson => None
  | Json d => Some d
  end.

Definition vacuum_resonator (o : Oracle) (parentA parentB : ThinkerNode)
    (currentGen : Z) : ThinkerNode :=
  {| id := generatedId o;
     name := Some "Vacuum Resonator";
     archetype := Some VOID;
     stats := {| logic := Some 10%Z; creativity := Some 10%Z;
                 empathy := Some 100%Z; complexity := Some 5%Z |};
     generation := currentGen + 1;
     parents := Some [id parentA; id parentB];
     description := Some "A moment of silence. The void listens.";
     instrument := "Void Harp";
     avatarSeed := random_avatarSeed o |}.

Definition newNode (o : Oracle) (parentA parentB : ThinkerNode)
    (currentGen : Z) (data : EvolutionData) : ThinkerNode :=
  {| id := generatedId o;
     name := d_name data;
     archetype := d_archetype data;
     stats := {| logic := d_logic data; creativity := d_creativity data;
                 empathy := d_empathy data; complexity := d_complexity data |};
     generation := currentGen + 1;
     parents := Some [id parentA; id parentB];
     description := d_description data;
     instrument := Js.or_else (d_instrument data) "Harmonic Oscillator";
     avatarSeed := random_avatarSeed o |}.

(** The prompt (which is where [globalCoherence] goes) is the request sent to
    the service; the reply is taken from the oracle. *)
Definition evolveThinkers (o : Oracle) (parentA parentB : ThinkerNode)
    (currentGen : Z) : Synthesis :=
  if negb (apiKey o) then Throws
  else
    match apiReply o with
    | ApiResponse t =>
        match parse_text t with
        | Some data =>
            Returns (newNode o parentA parentB currentGen data) (d_reasoning data)
        | None =>
            Returns (vacuum_resonator o parentA parentB currentGen)
                    (Some "Signal purity lost. Sanctuary Declared.")
        end
    | ApiError =>
        Returns (vacuum_resonator o parentA parentB currentGen)
                (Some "Signal purity lost. Sanctuary Declared.")
    end.

(** ** App.tsx *)

Definition endpointId (e : Endpoint) : string :=
  match e with
  | ById i => i
  | ByNode n => id n
  end.

(** [addLog]: [setLogs(prev => [...prev.slice(-50), entry])] *)
Definition addLog (st : string * Z) (msg : string) (ty : LogType) : World -> World :=
  setLogs (fun prev =>
    Js.slice_last 50 prev ++
    [ {| log_id := fst st; timestamp := snd st; message := msg; log_type := ty |} ]).

(** [typeof e === 'object' ? e.id : e] *)
Definition cleanEndpoint (e : Endpoint) : Endpoint :=
  match e with
  | ByNode n => ById (id n)
  | ById i => ById i
  end.

Definition cleanLink (l : Link) : Link :=
  {| source := cleanEndpoint (source l); target := cleanEndpoint (target l);
     strength := strength l; link_type := link_type l |}.

(** [handleSave(silent)]: [ok] tells whether [localStorage.setItem] succeeds.
    The stored JSON text is represented by the object it parses to. *)
Definition handleSave (silent ok : bool) (st : string * Z) (w : World) : World :=
  let s := stateRef w in
  let cleanLinks := map cleanLink (links s) in
  let state :=
    {| s_nodes := Some (nodes s); s_links := Some cleanLinks;
       s_logs := Some (logs s); s_isFluxMode := Some (isFluxMode s);
       s_timeMultiplier := Some (Js.json (timeMultiplier s));
       s_fluxPhase := Some (Js.json (fluxPhaseRef w));
       s_version := Some "1.2" |} in
  if ok then
    let w := set_localStorage (Stored state) w in
    if negb silent
    then addLog st "Simulation state crystallized to local memory." system w
    else w
  else
    if negb silent
    then addLog st "Error: Failed to crystallize state (Serialization Error)." conflict w
    else w.

Definition restore {A : Type} (v : option A) (set : A -> World -> World)
    (w : World) : World :=
  match v with
  | Some a => set a w
  | None => w
  end.

(** [handleLoad] *)
Definition handleLoad (st : string * Z) (w : World) : World :=
  match localStorage w with
  | Some (Stored parsed) =>
      match s_nodes parsed, s_links parsed with
      | Some ns, Some ls =>
          let w := setNodes (fun _ => ns) w in
          let w := setLinks (fun _ => ls) w in
          let w := setLogs (fun prev => prev ++
            [ {| log_id := fst st; timestamp := snd st;
                 message := "Manual override: Timeline restored from previous checkpoint.";
                 log_type := system |} ]) w in
          let w := restore (s_isFluxMode parsed) setIsFluxMode w in
          let w := restore (s_timeMultiplier parsed) setTimeMultiplier w in
          restore (s_fluxPhase parsed) set_fluxPhaseRef w
      | _, _ => addLog st "Error: Corrupted memory core." conflict w
      end
  | Some Unparseable => addLog st "Error: Memory core access denied." conflict w
  | None => addLog st "No crystallized state found." system w
  end.

(** The automatic backup, every five minutes. *)
Definition backup (ok : bool) (st : string * Z) (w : World) : World :=
  addLog st "Periodic system backup complete." system (handleSave true ok st w).

(** *** The evolution cycle *)

(** Result of an [async] function or of a run of [loop]: it completes; or
    its promise is rejected by an uncaught [TypeError]; or it never leaves
    the resampling loop. *)
Inductive Outcome :=
| Completed (w : World)
| Rejected
| Diverged.

(** The comparator of the pruning sort.  Within a generation it returns
    [NaN] when a complexity is [undefined]; [sort] reads a [NaN] result as
    [0], which is what is written here, but the result of the sort is not
    determined by the comparator in that case: see [sorted_first]. *)
Definition compareNodes (a b : ThinkerNode) : Z :=
  if negb (generation a =? generation b)%Z
  then (generation a - generation b)%Z
  else
    match Js.sub (complexity (stats a)) (complexity (stats b)) with
    | Some d => d
    | None => 0%Z
    end.

Definition names (i : string) (l : Link) : bool :=
  (endpointId (source l) =? i) || (endpointId (target l) =? i).

Definition numeric (n : ThinkerNode) : bool :=
  match complexity (stats n) with
  | Some _ => true
  | None => false
  end.

(** [[...currentNodes].sort(compareNodes)[0]].  When every complexity is a
    number the comparator is consistent and the sort is the stable one.  On
    an entity whose complexity is [undefined] the comparator returns [NaN]
    (already on the entity and itself): the order of the sorted array is then
    implementation-defined, and its first element is the one the oracle
    names. *)
Definition sorted_first (o : Oracle) (currentNodes : list ThinkerNode)
    : option ThinkerNode :=
  if forallb numeric currentNodes
  then hd_error (Js.sort compareNodes currentNodes)
  else nth_error currentNodes (engine_first o mod length currentNodes).

(** Entropy / pruning: gives [workingNodes] and the updated state, or [None]
    when [transcendedNode] is [undefined]. *)
Definition pruning (o : Oracle) (w : World) : option (list ThinkerNode * World) :=
  let currentNodes := nodes (stateRef w) in
  if (MAX_NODES <=? length currentNodes)%nat then
    match sorted_first o currentNodes with
    | Some transcendedNode =>
        let workingNodes :=
          filter (fun n => negb (id n =? id transcendedNode)) currentNodes in
        let w := addLog (stamp o 0)
          (Js.show (name transcendedNode) ++
           " has transcended to the Void to make space.")%string system w in
        let w := setNodes (fun _ => workingNodes) w in
        let w := setLinks (filter (fun l =>
          negb (endpointId (source l) =? id transcendedNode) &&
          negb (endpointId (target l) =? id transcendedNode))) w in
        Some (workingNodes, w)
    | None => None
    end
  else Some (currentNodes, w).

(** [while (parentBIndex === parentAIndex && n > 1) parentBIndex = ...]:
    [None] when the draws run out before the loop exits. *)
Fixpoint resample (n parentAIndex parentBIndex : nat) (redraws : list nat)
    {struct redraws} : option nat :=
  if (parentBIndex =? parentAIndex)%nat && (1 <? n)%nat then
    match redraws with
    | r :: rs => resample n parentAIndex (r mod n) rs
    | [] => None
    end
  else Some parentBIndex.

Definition is_void (n : ThinkerNode) : bool :=
  match archetype n with
  | Some VOID => true
  | _ => false
  end.

(** [n.stats.logic + n.stats.empathy > RESONANCE_THRESHOLD] *)
Definition resonant (n : ThinkerNode) : bool :=
  Js.gt (Js.add (logic (stats n)) (empathy (stats n))) RESONANCE_THRESHOLD.

Definition harmonic_bridges (parentA parentB child : ThinkerNode)
    (workingNodes : list ThinkerNode) : list Link :=
  let resonantNodes :=
    filter (fun n => resonant n && negb (id n =? id parentA)
                     && negb (id n =? id parentB)) workingNodes in
  map (fun target_ =>
         {| source := ById (id child); target := ById (id target_);
            strength := 2; link_type := interaction |})
      (Js.slice_first 2 resonantNodes).

Definition newLinks (parentA parentB child : ThinkerNode)
    (workingNodes : list ThinkerNode) : list Link :=
  [ {| source := ById (id parentA); target := ById (id child);
       strength := 1; link_type := ancestry |};
    {| source := ById (id parentB); target := ById (id child);
       strength := 1; link_type := ancestry |} ]
  ++ (if resonant child
      then harmonic_bridges parentA parentB child workingNodes
      else []).

Definition significant (child : ThinkerNode) : bool :=
  Js.gt (complexity (stats child)) 5 || Js.gt (empathy (stats child)) 95.

(** The part of [performEvolutionStep] that follows the [await]. *)
Definition after_synthesis (o : Oracle) (parentA parentB : ThinkerNode)
    (workingNodes : list ThinkerNode) (r : Synthesis) (w : World) : World :=
  match r with
  | Returns child reasoning =>
      if is_void child then
        let w := set_emergencyCoolDownRef true w in
        let w := addLog (stamp o 2)
          "Tesla Protocol: Sanctuary Declared. Syntropic Override engaged."
          conflict w in
        addLog (stamp o 3)
          ("Broadcasting Impossible Truth: " ++ dquote ++ IMPOSSIBLE_TRUTH_axiom
           ++ dquote)%string
          system w
      else
        let w := set_emergencyCoolDownRef false w in
        let w := addLog (stamp o 4)
          ("New Consciousness Born: " ++ Js.show (name child) ++ ". "
           ++ Js.show reasoning)%string birth w in
        let w :=
          if resonant child then
            addLog (stamp o 5)
              ("AXIOM RESONANCE ACHIEVED: " ++ Js.show (name child)
               ++ " is weaving the Unifying Branch.")%string system w
          else w in
        let w :=
          if significant child
          then handleSave true (setItem_ok o) (stamp o 7) w
          else w in
        let w := setNodes (fun prev => prev ++ [child]) w in
        setLinks (fun prev =>
          prev ++ newLinks parentA parentB child workingNodes) w
  | Throws =>
      let w := addLog (stamp o 6)
        "Synthesis disrupted. Re-calibrating coherence." conflict w in
      set_emergencyCoolDownRef true w
  end.

(** The state in which [evolveThinkers] is called. *)
Definition calling (o : Oracle) (parentA parentB : ThinkerNode) (w : World) : World :=
  record_request
    {| req_parentA := parentA; req_parentB := parentB;
       req_currentGen := Z.max (generation parentA) (generation parentB) |}
    (addLog (stamp o 1)
       ("Initiating synthesis: " ++ Js.show (name parentA) ++ " + "
        ++ Js.show (name parentB) ++ "...")%string evolution w).

(** The [await].  Without a key [evolveThinkers] throws before its first
    [await] and the step goes on at once; with a key the step is suspended
    until the service answers, React renders the updates queued so far, and
    the code after the [await] finds them in [stateRef.current]. *)
Definition awaited (o : Oracle) (w : World) : World :=
  if apiKey o then rerender w else w.

(** The state in which the synthesis is awaited. *)
Definition awaiting (o : Oracle) (parentA parentB : ThinkerNode) (w : World) : World :=
  awaited o (calling o parentA parentB w).

(** What [performEvolutionStep] does before the [await]. *)
Inductive Started :=
| Returned (w : World)
| Called (parentA parentB : ThinkerNode) (workingNodes : list ThinkerNode) (w : World)
| Threw
| Spinning.

Definition before_await (o : Oracle) (w : World) : Started :=
  match pruning o w with
  | None => Threw
  | Some (workingNodes, w) =>
      if (length workingNodes <? 2)%nat then Returned w
      else
        let n := length workingNodes in
        let parentAIndex := draw_parentA o mod n in
        match resample n parentAIndex (draw_parentB o mod n) (redraws o) with
        | None => Spinning
        | Some parentBIndex =>
            match nth_error workingNodes parentAIndex,
                  nth_error workingNodes parentBIndex with
            | Some parentA, Some parentB =>
                Called parentA parentB workingNodes (calling o parentA parentB w)
            | _, _ => Threw
            end
        end
  end.

(** The [await] and what follows it, in a state [w] that other events may
    have changed since [evolveThinkers] was called. *)
Definition settle (o : Oracle) (parentA parentB : ThinkerNode)
    (workingNodes : list ThinkerNode) (w : World) : World :=
  after_synthesis o parentA parentB workingNodes
    (evolveThinkers o parentA parentB
       (Z.max (generation parentA) (generation parentB)))
    (awaited o w).

(** [performEvolutionStep], when no other event falls into its [await]. *)
Definition performEvolutionStep (o : Oracle) (w : World) : Outcome :=
  match before_await o w with
  | Returned w => Completed w
  | Called parentA parentB workingNodes w =>
      Completed (settle o parentA parentB workingNodes w)
  | Threw => Rejected
  | Spinning => Diverged
  end.

(** *** The game loop *)

Section Loop.

(** [Math.sin] and [Math.pow], which the language leaves to the host. *)
Variable Math_sin : float -> float.
Variable Math_pow : float -> float -> float.

(** The delay computation at the head of [loop]. *)
Definition calculate_delay (w : World) : float * World :=
  if emergencyCoolDownRef w then
    (10000%float, setTimeMultiplier 0.001%float w)
  else if isFluxMode (stateRef w) then
    let w := set_fluxPhaseRef (fluxPhaseRef w + 0.1)%float w in
    let wave := Math_sin (fluxPhaseRef w) in
    let exponent := (wave * 3)%float in
    let multiplier := Math_pow 10%float exponent in
    ((EVOLUTION_INTERVAL_MS / multiplier)%float, setTimeMultiplier multiplier w)
  else
    (EVOLUTION_INTERVAL_MS,
     if negb (timeMultiplier (stateRef w) =? 1)%float
     then setTimeMultiplier 1%float w
     else w).

Definition safeDelay_of (currentDelay : float) : float :=
  Js.Math_max 750%float (Js.Math_min currentDelay 60000%float).

(** [timeoutId = setTimeout(loop, safeDelay)] at the end of a run of [loop]:
    [timeoutId] is the variable of the effect instance that created this
    [loop].  The clean-up of the current instance will clear the timer;
    nothing clears it when that instance has been cleaned up already. *)
Definition own (run : option nat) (w : World) : bool :=
  match run with
  | Some e => (e =? effectRuns w)%nat
  | None => false
  end.

Definition schedule (run : option nat) (safeDelay : float) (w : World) : World :=
  if own run w then setTimeout safeDelay w
  else set_strayTimers (safeDelay :: strayTimers w) w.

(** The end of [loop]. *)
Definition finish (run : option nat) (safeDelay : float) (w : World) : World :=
  let w :=
    if emergencyCoolDownRef w then set_emergencyCoolDownRef false w else w in
  schedule run safeDelay w.

(** One run of [loop], of the effect instance [run], when no other event
    falls into its [await]: it ends by scheduling the next run, unless the
    evolution step did not complete. *)
Definition loop (run : option nat) (o : Oracle) (w : World) : Outcome :=
  let isPaused_ := isPaused (stateRef w) in
  let '(currentDelay, w) := calculate_delay w in
  let safeDelay := safeDelay_of currentDelay in
  let r := if negb isPaused_ then performEvolutionStep o w else Completed w in
  match r with
  | Completed w => Completed (finish run safeDelay w)
  | Rejected => Rejected
  | Diverged => Diverged
  end.

(** The same run up to the [await]: it has run to its end, or is suspended
    with a call of the service under way. *)
Inductive Begun :=
| Ran (r : Outcome)
| Suspended (w : World).

Definition begin (run : option nat) (o : Oracle) (w : World) : Begun :=
  let isPaused_ := isPaused (stateRef w) in
  let '(currentDelay, w) := calculate_delay w in
  let safeDelay := safeDelay_of currentDelay in
  if isPaused_ then Ran (Completed (finish run safeDelay w))
  else
    match before_await o w with
    | Returned w => Ran (Completed (finish run safeDelay w))
    | Called parentA parentB workingNodes w =>
        if apiKey o then
          Suspended
            (set_suspended
               ({| p_parentA := parentA; p_parentB := parentB;
                   p_workingNodes := workingNodes;
                   p_safeDelay := safeDelay; p_run := run |}
                :: suspended w) w)
        else
          Ran (Completed
                 (finish run safeDelay
                    (settle o parentA parentB workingNodes w)))
    | Threw => Ran Rejected
    | Spinning => Ran Diverged
    end.

(** The service answers the [k]-th suspended run, which goes on to its end. *)
Definition resume (o : Oracle) (k : nat) (w : World) : option World :=
  match nth_error (suspended w) k with
  | Some p =>
      Some (finish (p_run p) (p_safeDelay p)
              (settle o (p_parentA p) (p_parentB p) (p_workingNodes p)
                 (set_suspended (without k (suspended w)) w)))
  | None => None
  end.

(** The pending timers: the one of the current effect instance, and those
    that runs of cleaned-up instances have set. *)
Inductive Timer :=
| Current
| Stray (k : nat).

Definition armed (t : Timer) (w : World) : bool :=
  match t with
  | Current => match timeoutId w with Some _ => true | None => false end
  | Stray k => (k <? length (strayTimers w))%nat
  end.

(** The timer fires: the run of [loop] that starts, and the state without
    the timer. *)
Definition fire (t : Timer) (w : World) : option nat * World :=
  match t with
  | Current => (Some (effectRuns w), timer_fired w)
  | Stray k => (None, set_strayTimers (without k (strayTimers w)) w)
  end.

(** A tick: a timer fires after React has rendered the earlier updates. *)
Definition tick_of (t : Timer) (o : Oracle) (w : World) : Outcome :=
  let w := rerender w in
  loop (fst (fire t w)) o (snd (fire t w)).

Definition tick (o : Oracle) (w : World) : Outcome := tick_of Current o w.

(** The tick up to the [await]. *)
Definition begin_tick (t : Timer) (o : Oracle) (w : World) : Begun :=
  let w := rerender w in
  begin (fst (fire t w)) o (snd (fire t w)).

End Loop.

(** *** Start of the application and operations of the interface *)

(** A number in a boolean position: [0], [-0] and [NaN] are falsy. *)
Definition truthy (x : float) : bool := negb (Js.is_zero x || is_nan x).

(** [App]'s initial state.  [initialState] is the parsed content of the
    storage slot, or [null] when the slot is empty or cannot be parsed;
    [now] is [Date.now()]. *)
Definition initialState (item : option StorageItem) : option SavedState :=
  match item with
  | Some (Stored s) => Some s
  | _ => None
  end.

Definition field {A : Type} (i : option SavedState) (f : SavedState -> option A)
    : option A :=
  match i with
  | Some s => f s
  | None => None
  end.

Definition mount (item : option StorageItem) (now : Z) : World :=
  let i := initialState item in
  let s :=
    {| nodes := match field i s_nodes with Some ns => ns | None => INITIAL_NODES end;
       links := match field i s_links with Some ls => ls | None => [] end;
       logs :=
         match field i s_logs with
         | Some old =>
             old ++
             [ {| log_id := ("resume-" ++ NilZero.string_of_int (Z.to_int now))%string;
                  timestamp := now;
                  message := "Memory integrity verified. Timeline resumed from crystalline storage.";
                  log_type := system |} ]
         | None =>
             [ {| log_id := "init"; timestamp := now;
                  message := "System Re-seeded. Bryer Continuation Seal verified. Frequency: 1.8033988 Hz.";
                  log_type := system |} ]
         end;
       isPaused := false;
       isFluxMode := match field i s_isFluxMode with Some b => b | None => false end;
       timeMultiplier :=
         match field i s_timeMultiplier with
         | Some m => if truthy m then m else 1%float
         | None => 1%float
         end |} in
  {| react := s; stateRef := s;
     fluxPhaseRef :=
       match field i s_fluxPhase with
       | Some p => if truthy p then p else 0%float
       | None => 0%float
       end;
     emergencyCoolDownRef := false;
     localStorage := item;
     timeoutId := Some (initialDelay s);
     requests := [];
     effectRuns := 1; strayTimers := []; suspended := [] |}.

(** [onTogglePause] and [onToggleFlux]: closures of the last render. *)
Definition togglePause (w : World) : World :=
  setIsPaused (negb (isPaused (stateRef w))) w.

Definition toggleFlux (w : World) : World :=
  setIsFluxMode (negb (isFluxMode (stateRef w))) w.

(** *** The render surface

    [d3.forceLink(links).id(d => d.id)] in [TopoNetwork] replaces, in the link
    objects it is given, every endpoint that is an identifier by the node of
    that identifier (the last one, should several share it) and throws when
    there is none.  The link objects are those of the React state, so the
    replacement is seen by the scheduler. *)
Definition find_node (ns : list ThinkerNode) (i : string) : option ThinkerNode :=
  find (fun n => id n =? i) (rev ns).

Definition resolve (ns : list ThinkerNode) (e : Endpoint) : option Endpoint :=
  match e with
  | ByNode n => Some (ByNode n)
  | ById i => option_map ByNode (find_node ns i)
  end.

Definition resolveLink (ns : list ThinkerNode) (l : Link) : option Link :=
  match resolve ns (source l), resolve ns (target l) with
  | Some s, Some t =>
      Some {| source := s; target := t; strength := strength l;
              link_type := link_type l |}
  | _, _ => None
  end.

Fixpoint resolveLinks (ns : list ThinkerNode) (ls : list Link) : option (list Link) :=
  match ls with
  | [] => Some []
  | l :: ls' =>
      match resolveLink ns l, resolveLinks ns ls' with
      | Some l', Some ls'' => Some (l' :: ls'')
      | _, _ => None
      end
  end.

(** The effect of a render of [TopoNetwork] on the links; [None] when D3
    throws. *)
Definition forceLink (w : World) : option World :=
  let w := rerender w in
  match resolveLinks (nodes (react w)) (links (react w)) with
  | Some ls => Some (render (setLinks (fun _ => ls) w))
  | None => None
  end.

(** ** Runs of the application *)

(** Identifiers that occur in a population, as an identifier or as a parent. *)
Definition parentsOf (n : ThinkerNode) : list string :=
  match parents n with
  | Some ps => ps
  | None => []
  end.

Definition mentioned (ns : list ThinkerNode) : list string :=
  map id ns ++ flat_map parentsOf ns.

Definition endpoints (ls : list Link) : list string :=
  flat_map (fun l => [endpointId (source l); endpointId (target l)]) ls.

(** Identifiers that the store knows: those of its entities, of their
    recorded parents and of the endpoints of its edges. *)
Definition known (w : World) : list string :=
  mentioned (nodes (react w)) ++ endpoints (links (react w)).

(** [generateId()] draws nine random characters; a run in which it repeats an
    identifier known to the store is left out. *)
Definition fresh (o : Oracle) (w : World) : bool :=
  negb (existsb (String.eqb (generatedId o)) (known w)).

Section Runs.

Variable Math_sin : float -> float.
Variable Math_pow : float -> float -> float.

(** States between two events.  The application starts on an empty storage
    slot or is reloaded on the slot it left.  React renders.  A pending timer
    fires and its run of [loop] goes to its end or is suspended at the
    [await]; the service answers a suspended run.  The user saves, loads, pauses or toggles the
    flux mode; the backup timer fires; the render surface resolves the
    links.  Every event finds the earlier updates rendered, and any event
    may fall between the suspension of a run and its answer. *)
Inductive reachable : World -> Prop :=
| reach_start now :
    reachable (mount None now)
| reach_reload w now :
    reachable w -> reachable (mount (localStorage w) now)
| reach_render w :
    reachable w -> reachable (rerender w)
| reach_tick w t o w' :
    reachable w -> fresh o w = true ->
    armed t (rerender w) = true ->
    tick_of Math_sin Math_pow t o w = Completed w' ->
    reachable w'
| reach_begin w t o w' :
    reachable w ->
    armed t (rerender w) = true ->
    begin_tick Math_sin Math_pow t o w = Suspended w' ->
    reachable w'
| reach_resume w o k w' :
    reachable w -> apiKey o = true -> fresh o w = true ->
    resume o k w = Some w' ->
    reachable w'
| reach_save w ok st :
    reachable w -> reachable (handleSave false ok st (rerender w))
| reach_backup w ok st :
    reachable w -> reachable (backup ok st (rerender w))
| reach_load w st :
    reachable w -> reachable (handleLoad st (rerender w))
| reach_pause w :
    reachable w -> reachable (togglePause (rerender w))
| reach_flux w :
    reachable w -> reachable (toggleFlux (rerender w))
| reach_forceLink w w' :
    reachable w -> forceLink w = Some w' -> reachable w'.

(** Consecutive ticks of the current timer, one oracle each; [None] if one
    of them does not complete, repeats an identifier or finds no timer. *)
Fixpoint ticks (os : list Oracle) (w : World) : option World :=
  match os with
  | [] => Some w
  | o :: os' =>
      if fresh o w && armed Current (rerender w) then
        match tick Math_sin Math_pow o w with
        | Completed w' => ticks os' w'
        | _ => None
        end
      else None
  end.

End Runs.

(** ** What the specification says of the store *)

Definition is_ancestry (l : Link) : bool :=
  match link_type l with
  | ancestry => true
  | interaction => false
  end.

(** Sources of the ancestry edges that point to [c], in store order. *)
Definition ancestors (ls : list Link) (c : string) : list string :=
  map (fun l => endpointId (source l))
      (filter (fun l => is_ancestry l && (endpointId (target l) =? c)) ls).

Definition present (ns : list ThinkerNode) (i : string) : bool :=
  existsb (fun n => id n =? i) ns.




(** A required field of the response schema is absent. *)
Definition lacks_required_field (d : EvolutionData) : bool :=
  match d_name d, d_archetype d, d_logic d, d_creativity d, d_empathy d,
        d_complexity d, d_description d, d_instrument d, d_reasoning d with
  | Some _, Some _, Some _, Some _, Some _, Some _, Some _, Some _, Some _ => false
  | _, _, _, _, _, _, _, _, _ => true
  end.

(** The synthesis failed: it threw or gave a VOID entity. *)
Definition failed (r : Synthesis) : bool :=
  match r with
  | Throws => true
  | Returns child _ => is_void child
  end.

(** Some draw of the second parent differs from the first parent's index in
    a population of [n]: the resampling loop ends. *)
Definition distinct_draw (o : Oracle) (n : nat) : Prop :=
  Exists (fun r => r mod n <> draw_parentA o mod n)
         (draw_parentB o :: redraws o).

(** The client answers with a VOID entity. *)
Definition returns_void (o : Oracle) : Prop :=
  forall parentA parentB currentGen,
    exists child reasoning,
      evolveThinkers o parentA parentB currentGen = Returns child reasoning /\
      is_void child = true.

(** The log entry of a call of [addLog] at call site [k]. *)
Definition entry (o : Oracle) (k : nat) (msg : string) (ty : LogType) : LogEntry :=
  {| log_id := fst (stamp o k); timestamp := snd (stamp o k);
     message := msg; log_type := ty |}.

(** An edge as the snapshot expresses it: endpoint identifiers, strength
    and kind. *)
Definition edge (l : Link) : string * string * Z * LinkType :=
  (endpointId (source l), endpointId (target l), strength l, link_type l).

Definition by_id (l : Link) : Prop :=
  match source l, target l with
  | ById _, ById _ => True
  | _, _ => False
  end.

Definition by_node (l : Link) : Prop :=
  match source l, target l with
  | ByNode _, ByNode _ => True
  | _, _ => False
  end.

(** The store invariant of the specification: an entity that has parents has
    exactly two ancestry edges pointing to it, from its two parents. *)
Definition two_ancestry_edges (ns : list ThinkerNode) (ls : list Link) : Prop :=
  forall c ps, In c ns -> parents c = Some ps ->
    length ps = 2 /\ ancestors ls (id c) = ps.

(** What the code maintains instead.  Identifiers are unique; an entity
    with parents has two distinct ones; and the ancestry edges pointing to an
    entity come from its recorded parents, no two of them from the same. *)
Record consistent (ns : list ThinkerNode) (ls : list Link) : Prop := {
  ids_unique : NoDup (map id ns);
  parents_pair :
    forall c ps, In c ns -> parents c = Some ps ->
      exists a b, ps = [a; b] /\ a <> b;
  ancestry_distinct :
    forall c, In c ns -> NoDup (ancestors ls (id c));
  ancestry_recorded :
    forall c, In c ns -> incl (ancestors ls (id c)) (parentsOf c)
}.

(** The storage slot is empty or holds a snapshot of a consistent store. *)
Definition stored_consistent (item : option StorageItem) : Prop :=
  match item with
  | None => True
  | Some Unparseable => False
  | Some (Stored s) =>
      match s_nodes s, s_links s with
      | Some ns, Some ls => consistent ns ls
      | _, _ => False
      end
  end.

(** The parents of a suspended step are two entities. *)
Definition two_parents (p : Pending) : Prop :=
  id (p_parentA p) <> id (p_parentB p).

Definition store_invariant (w : World) : Prop :=
  consistent (nodes (react w)) (links (react w)) /\
  stored_consistent (localStorage w) /\
  Forall two_parents (suspended w).

(** [w1] holds part of the store of [w], with the same storage slot and the
    same suspended runs. *)
Definition part_of (w w1 : World) : Prop :=
  incl (nodes (react w1)) (nodes (react w)) /\
  incl (links (react w1)) (links (react w)) /\
  localStorage w1 = localStorage w /\
  suspended w1 = suspended w.

(** Decidable forms of the well-formedness of a population. *)
Fixpoint distinct (l : list string) : bool :=
  match l with
  | [] => true
  | x :: r => negb (existsb (String.eqb x) r) && distinct r
  end.

(** ** Scenarios *)

Definition no_stamp : nat -> string * Z := fun _ => ("0.log", 0%Z).

Definition child_data : EvolutionData :=
  {| d_name := Some "Chord of One"; d_archetype := Some MYSTIC;
     d_logic := Some 50%Z; d_creativity := Some 50%Z; d_empathy := Some 50%Z;
     d_complexity := Some 50%Z; d_description := Some "A bridge.";
     d_instrument := Some "Theremin"; d_reasoning := Some "Synthesis." |}.

(** A reply in which only [name] is missing. *)
Definition nameless_data : EvolutionData :=
  {| d_name := None; d_archetype := Some MYSTIC;
     d_logic := Some 50%Z; d_creativity := Some 50%Z; d_empathy := Some 50%Z;
     d_complexity := Some 50%Z; d_description := Some "A bridge.";
     d_instrument := Some "Theremin"; d_reasoning := Some "Synthesis." |}.

Definition oracle_with (key : bool) (r : ApiReply) (i : string) : Oracle :=
  {| apiKey := key; draw_parentA := 0; draw_parentB := 1; redraws := [];
     apiReply := r; generatedId := i; random_avatarSeed := 0.5%float;
     setItem_ok := true; engine_first := 0; stamp := no_stamp |}.

Definition birth_oracle (i : string) : Oracle :=
  oracle_with true (ApiResponse (Json child_data)) i.

Definition throwing_oracle : Oracle := oracle_with false ApiError "k3x9q2m1z".

Definition void_oracle : Oracle := oracle_with true ApiError "k3x9q2m1z".

Definition nameless_oracle : Oracle :=
  oracle_with true (ApiResponse (Json nameless_data)) "k3x9q2m1z".

Definition empty_reply_oracle : Oracle :=
  oracle_with true (ApiResponse NoText) "k3x9q2m1z".

Definition fresh_start : World := mount None 0.

(** The world in which a run ended, for runs that complete. *)
Definition world_of (r : Outcome) : World :=
  match r with
  | Completed w => w
  | _ => fresh_start
  end.

(** Identifiers [c1], [c2], ... for the children of a long run. *)
Definition child_id (k : nat) : string :=
  ("c" ++ NilZero.string_of_uint (Nat.to_uint k))%string.

Definition births (from count : nat) : list Oracle :=
  map (fun k => birth_oracle (child_id k)) (seq from count).

(** The store after forty-one births: the four seeds and [c1] ... [c41]. *)
Definition full_house : World :=
  Eval vm_compute in
    match ticks (fun x => x) (fun x _ => x) (births 1 41) fresh_start with
    | Some w => w
    | None => fresh_start
    end.

(** One tick later: the first seed has been evicted. *)
Definition after_eviction : World :=
  Eval vm_compute in
    match ticks (fun x => x) (fun x _ => x) (births 1 42) fresh_start with
    | Some w => w
    | None => fresh_start
    end.

(** A store whose links the render surface has resolved to node objects:
    the state after one birth and one render of the network. *)
Definition resolved_birth : World :=
  Eval vm_compute in
    match tick (fun x => x) (fun x _ => x)
            (birth_oracle "k3x9q2m1z") fresh_start with
    | Completed w =>
        match forceLink w with
        | Some w' => w'
        | None => fresh_start
        end
    | _ => fresh_start
    end.

(** The scheduler paused, in flux mode. *)
Definition paused_in_flux : World :=
  toggleFlux (rerender (togglePause (rerender fresh_start))).

(** A stored object that has links but no nodes, and a world whose slot
    holds it. *)
Definition linkless_object : SavedState :=
  {| s_nodes := None; s_links := Some []; s_logs := None;
     s_isFluxMode := None; s_timeMultiplier := None; s_fluxPhase := None;
     s_version := None |}.

Definition odd_slot : World := set_localStorage (Stored linkless_object) fresh_start.

(** The world in which a run is suspended, and the world in which a
    suspended run ended. *)
Definition suspended_in (r : Begun) : World :=
  match r with
  | Suspended w => w
  | Ran _ => fresh_start
  end.

Definition resumed_in (r : option World) : World :=
  match r with
  | Some w => w
  | None => fresh_start
  end.

(** The oracle [o] with other draws for the parents. *)
Definition drawing (a b : nat) (o : Oracle) : Oracle :=
  {| apiKey := apiKey o; draw_parentA := a; draw_parentB := b;
     redraws := redraws o; apiReply := apiReply o;
     generatedId := generatedId o; random_avatarSeed := random_avatarSeed o;
     setItem_ok := setItem_ok o; engine_first := engine_first o;
     stamp := stamp o |}.

(** A load that falls into the [await] of a step.  The first tick gives
    birth to [c1] and saves the seeds; the second tick chooses [c1] and the
    first seed and is suspended; the user loads the snapshot; the service
    answers. *)
Definition born_first : World :=
  Eval vm_compute in
    world_of (tick (fun x => x) (fun x _ => x) (birth_oracle "c1") fresh_start).

Definition awaiting_second : World :=
  Eval vm_compute in
    suspended_in (begin_tick (fun x => x) (fun x _ => x) Current
                    (drawing 4 0 (birth_oracle "c2")) born_first).

Definition loaded_while_awaiting : World :=
  Eval vm_compute in
    resumed_in (resume (birth_oracle "c2") 0
                  (handleLoad (no_stamp 0) (rerender awaiting_second))).

(** Two steps that overlap.  A tick at capacity evicts the first seed and is
    answered with a VOID entity; the loop effect has run again during its
    [await], so that two timers are pending.  Both fire before the service
    has answered the first of them. *)
Definition two_timers : World :=
  Eval vm_compute in
    world_of (tick (fun x => x) (fun x _ => x) void_oracle full_house).

Definition once_suspended : World :=
  Eval vm_compute in
    suspended_in (begin_tick (fun x => x) (fun x _ => x) Current
                    (birth_oracle "c42") two_timers).

Definition twice_suspended : World :=
  Eval vm_compute in
    suspended_in (begin_tick (fun x => x) (fun x _ => x) (Stray 0)
                    (birth_oracle "c43") once_suspended).

Definition overlapping : World :=
  Eval vm_compute in
    resumed_in (resume (birth_oracle "c42") 1 twice_suspended).

(** The flux mode at the trough of its wave, where the host's [Math.pow]
    gives 0.001: the state after a birth in flux mode. *)
Definition trough : World :=
  Eval vm_compute in
    world_of (tick (fun x => x) (fun _ _ => 0.001%float) (birth_oracle "c1")
                (toggleFlux (rerender fresh_start))).





(** A store reduced to its first seed. *)
Definition lonely : World := setNodes (firstn 1) fresh_start.

Definition log_filler : LogEntry :=
  {| log_id := "0.log"; timestamp := 0; message := "filler"; log_type := system |}.

(** * Properties *)

(** ** The log buffer *)

Lemma slice_last_length {A : Type} (k : nat) (l : list A) :
  length (Js.slice_last k l) = Nat.min k (length l).
Proof.
  unfold Js.slice_last. rewrite length_skipn. lia.
Qed.

Lemma addLog_logs st msg ty w :
  logs (react (addLog st msg ty w)) =
  Js.slice_last 50 (logs (react w)) ++
  [ {| log_id := fst st; timestamp := snd st; message := msg; log_type := ty |} ].
Proof. reflexivity. Qed.

Lemma addLog_length st msg ty w :
  length (logs (react (addLog st msg ty w))) =
  S (Nat.min 50 (length (logs (react w)))).
Proof.
  rewrite addLog_logs, length_app, slice_last_length. simpl. lia.
Qed.

(** C4, on the code: [addLog] keeps the last fifty entries of the buffer and
    then appends the new one, so a buffer that holds fifty entries holds
    fifty-one after the write, and fifty-one again after every later write.
    The comment in the code reads "Keep last 50 logs". *)
Theorem addLog_retains_fifty_one :
  let w := setLogs (fun _ => repeat log_filler 50) fresh_start in
  length (logs (react w)) = 50 /\
  length (logs (react (addLog (no_stamp 0) "entry" system w))) = 51 /\
  length (logs (react (addLog (no_stamp 0) "entry" system
                         (addLog (no_stamp 0) "entry" system w)))) = 51.
Proof.
  cbv zeta. rewrite !addLog_length. repeat split.
Qed.

(** ** Renders *)

Lemma rerender_cases w :
  rerender w = render w \/ rerender w = loop_effect (render w).
Proof.
  unfold rerender. destruct (Js.same_value _ _); auto.
Qed.

(** A render leaves everything but [stateRef.current] and the timer of the
    loop effect as it finds it. *)
Lemma rerender_frame w :
  react (rerender w) = react w /\
  stateRef (rerender w) = react w /\
  fluxPhaseRef (rerender w) = fluxPhaseRef w /\
  emergencyCoolDownRef (rerender w) = emergencyCoolDownRef w /\
  localStorage (rerender w) = localStorage w /\
  requests (rerender w) = requests w /\
  strayTimers (rerender w) = strayTimers w /\
  suspended (rerender w) = suspended w.
Proof.
  destruct (rerender_cases w) as [-> | ->]; repeat split.
Qed.

Lemma rerender_react w : react (rerender w) = react w.
Proof. apply rerender_frame. Qed.

Lemma rerender_stateRef w : stateRef (rerender w) = react w.
Proof. apply rerender_frame. Qed.

Lemma rerender_cooldown w :
  emergencyCoolDownRef (rerender w) = emergencyCoolDownRef w.
Proof. apply rerender_frame. Qed.


(** A timer that fires leaves the store, the refs and the storage slot. *)
Lemma fire_frame t w :
  react (snd (fire t w)) = react w /\
  stateRef (snd (fire t w)) = stateRef w /\
  fluxPhaseRef (snd (fire t w)) = fluxPhaseRef w /\
  emergencyCoolDownRef (snd (fire t w)) = emergencyCoolDownRef w /\
  localStorage (snd (fire t w)) = localStorage w /\
  requests (snd (fire t w)) = requests w /\
  suspended (snd (fire t w)) = suspended w.
Proof.
  destruct t; repeat split.
Qed.

(** The end of [loop] lowers the flag and touches nothing but the timers. *)
Lemma finish_frame run d w :
  react (finish run d w) = react w /\
  stateRef (finish run d w) = stateRef w /\
  fluxPhaseRef (finish run d w) = fluxPhaseRef w /\
  emergencyCoolDownRef (finish run d w) = false /\
  localStorage (finish run d w) = localStorage w /\
  requests (finish run d w) = requests w /\
  suspended (finish run d w) = suspended w.
Proof.
  unfold finish, schedule.
  destruct (emergencyCoolDownRef w) eqn:E;
    match goal with |- context [own ?r ?x] => destruct (own r x) end;
    cbn; rewrite ?E; repeat split.
Qed.

(** ** The cooldown flag *)

Section Cooldown.

Variable Math_sin : float -> float.
Variable Math_pow : float -> float -> float.

Lemma loop_clears_cooldown run o w w' :
  loop Math_sin Math_pow run o w = Completed w' ->
  emergencyCoolDownRef w' = false.
Proof.
  unfold loop. destruct (calculate_delay Math_sin Math_pow w) as [d w1].
  destruct (if negb (isPaused (stateRef w)) then _ else _) as [w2| |];
    try discriminate.
  intros H. injection H as <-. apply finish_frame.
Qed.

Lemma handleSave_cooldown silent ok st w :
  emergencyCoolDownRef (handleSave silent ok st w) = emergencyCoolDownRef w.
Proof. unfold handleSave. destruct ok, silent; reflexivity. Qed.

Lemma restore_cooldown {A : Type} (v : option A) set w :
  (forall a w0, emergencyCoolDownRef (set a w0) = emergencyCoolDownRef w0) ->
  emergencyCoolDownRef (restore v set w) = emergencyCoolDownRef w.
Proof. intros H. destruct v; simpl; auto. Qed.

Lemma handleLoad_cooldown st w :
  emergencyCoolDownRef (handleLoad st w) = emergencyCoolDownRef w.
Proof.
  unfold handleLoad.
  destruct (localStorage w) as [[|p]|]; try reflexivity.
  destruct (s_nodes p), (s_links p); try reflexivity.
  rewrite !restore_cooldown; reflexivity.
Qed.

(** C1, on the code: a tick whose synthesis throws raises the cooldown flag
    inside [performEvolutionStep], but the same run of [loop] lowers it
    again before it schedules the next run, with the delay it computed
    before the step.  With the flux mode off the timer is set to 6000 ms
    after the failing tick and to 6000 ms again after the tick that
    follows; the same holds when the client returns its VOID entity.  The
    10000 ms of the cooldown branch are never scheduled. *)
Theorem cooldown_lowered_within_failing_tick :
  exists s1 w1 w2 s3 w3 w4,
    performEvolutionStep throwing_oracle (render fresh_start) = Completed s1 /\
    emergencyCoolDownRef s1 = true /\
    tick Math_sin Math_pow throwing_oracle fresh_start = Completed w1 /\
    emergencyCoolDownRef w1 = false /\
    timeoutId w1 = Some 6000%float /\
    tick Math_sin Math_pow throwing_oracle w1 = Completed w2 /\
    timeoutId w2 = Some 6000%float /\
    performEvolutionStep void_oracle (render fresh_start) = Completed s3 /\
    emergencyCoolDownRef s3 = true /\
    tick Math_sin Math_pow void_oracle fresh_start = Completed w3 /\
    emergencyCoolDownRef w3 = false /\
    timeoutId w3 = Some 6000%float /\
    tick Math_sin Math_pow void_oracle w3 = Completed w4 /\
    timeoutId w4 = Some 6000%float.
Proof.
  set (w1 := world_of (tick Math_sin Math_pow throwing_oracle fresh_start)).
  set (w3 := world_of (tick Math_sin Math_pow void_oracle fresh_start)).
  exists (world_of (performEvolutionStep throwing_oracle (render fresh_start))),
    w1, (world_of (tick Math_sin Math_pow throwing_oracle w1)),
    (world_of (performEvolutionStep void_oracle (render fresh_start))),
    w3, (world_of (tick Math_sin Math_pow void_oracle w3)).
  repeat match goal with
         | |- _ /\ _ => split
         end; vm_compute; reflexivity.
Qed.

End Cooldown.

(** ** The step after the synthesis *)

Lemma handleSave_silent_react ok st w :
  react (handleSave true ok st w) = react w.
Proof. unfold handleSave. destruct ok; reflexivity. Qed.

Lemma handleSave_silent_stateRef ok st w :
  stateRef (handleSave true ok st w) = stateRef w.
Proof. unfold handleSave. destruct ok; reflexivity. Qed.

Lemma is_void_archetype n :
  is_void n = true <-> archetype n = Some VOID.
Proof.
  unfold is_void. destruct (archetype n) as [[]|]; split; congruence.
Qed.

(** A child that is not VOID is appended to the store with the new links. *)
Lemma after_synthesis_birth o parentA parentB workingNodes child reasoning w :
  is_void child = false ->
  let w' := after_synthesis o parentA parentB workingNodes
              (Returns child reasoning) w in
  nodes (react w') = nodes (react w) ++ [child] /\
  links (react w') =
    links (react w) ++ newLinks parentA parentB child workingNodes /\
  emergencyCoolDownRef w' = false.
Proof.
  intros Hv. unfold after_synthesis. rewrite Hv.
  destruct (resonant child), (significant child); cbn -[newLinks handleSave];
    rewrite ?handleSave_silent_react, ?handleSave_cooldown; auto.
Qed.

(** The snapshot written by the automatic preservation is taken from
    [stateRef.current], before the child is queued for the store. *)
Lemma after_synthesis_snapshot o parentA parentB workingNodes child reasoning w :
  is_void child = false -> significant child = true -> setItem_ok o = true ->
  exists s,
    localStorage (after_synthesis o parentA parentB workingNodes
                    (Returns child reasoning) w) = Some (Stored s) /\
    s_nodes s = Some (nodes (stateRef w)) /\
    s_links s = Some (map cleanLink (links (stateRef w))).
Proof.
  intros Hv Hs Hok. unfold after_synthesis. rewrite Hv, Hs.
  unfold handleSave. rewrite Hok.
  destruct (resonant child); cbn; eexists; repeat split.
Qed.

(** C5, on the code: the automatic preservation runs before [setNodes] and
    [setLinks] and reads [stateRef.current].  After the first tick of a fresh
    start has given birth to a child of complexity 50, the store holds the
    child and its two ancestry edges, while the snapshot written in that tick
    holds the four seeds and no edge. *)
Theorem autosave_precedes_commit :
  forall (Math_sin : float -> float) (Math_pow : float -> float -> float),
  exists w' child s,
    tick Math_sin Math_pow (birth_oracle "k3x9q2m1z") fresh_start = Completed w' /\
    nodes (react w') = INITIAL_NODES ++ [child] /\
    significant child = true /\ is_void child = false /\
    id child = "k3x9q2m1z" /\
    ancestors (links (react w')) (id child) = ["seed-source"; "seed-harmonic"] /\
    localStorage w' = Some (Stored s) /\
    s_nodes s = Some INITIAL_NODES /\
    s_links s = Some [].
Proof.
  intros. do 3 eexists.
  repeat match goal with
         | |- _ /\ _ => split
         end; vm_compute; reflexivity.
Qed.

(** ** The synthesis client *)

(** C2 as stated fails: a reply whose object lacks [name] comes back from
    the client as an entity that is not VOID and has no name, and the tick
    commits it to the store; the same happens with an empty reply, which the
    client reads as the empty object. *)
Lemma nameless_reply_is_committed :
  lacks_required_field nameless_data = true /\
  lacks_required_field empty_object = true /\
  exists parentA parentB child blank,
    nth_error INITIAL_NODES 0 = Some parentA /\
    nth_error INITIAL_NODES 1 = Some parentB /\
    evolveThinkers nameless_oracle parentA parentB 0 =
      Returns child (Some "Synthesis.") /\
    name child = None /\ is_void child = false /\
    evolveThinkers empty_reply_oracle parentA parentB 0 = Returns blank None /\
    archetype blank = None /\ is_void blank = false /\
    forall (Math_sin : float -> float) (Math_pow : float -> float -> float),
    exists w1 w2,
      tick Math_sin Math_pow nameless_oracle fresh_start = Completed w1 /\
      nodes (react w1) = INITIAL_NODES ++ [child] /\
      tick Math_sin Math_pow empty_reply_oracle fresh_start = Completed w2 /\
      nodes (react w2) = INITIAL_NODES ++ [blank].
Proof.
  split; [reflexivity|]. split; [reflexivity|].
  do 4 eexists.
  repeat match goal with
         | |- _ /\ _ => split
         end; try (vm_compute; reflexivity).
  intros. do 2 eexists.
  repeat match goal with
         | |- _ /\ _ => split
         end; vm_compute; reflexivity.
Qed.

(** C2, amended: the client does not validate the parsed reply.  Whatever
    fields the object has, the client returns an entity that carries them as
    found, absent ones undefined and the instrument defaulting to "Harmonic
    Oscillator"; unless its archetype is VOID the scheduler appends it to
    the store with its links and leaves the cooldown flag down. *)
Theorem client_returns_reply_unvalidated o parentA parentB currentGen d :
  apiKey o = true ->
  apiReply o = ApiResponse (Json d) ->
  exists child,
    evolveThinkers o parentA parentB currentGen = Returns child (d_reasoning d) /\
    id child = generatedId o /\
    name child = d_name d /\
    archetype child = d_archetype d /\
    stats child = {| logic := d_logic d; creativity := d_creativity d;
                     empathy := d_empathy d; complexity := d_complexity d |} /\
    description child = d_description d /\
    instrument child = Js.or_else (d_instrument d) "Harmonic Oscillator" /\
    generation child = (currentGen + 1)%Z /\
    parents child = Some [id parentA; id parentB] /\
    (d_archetype d <> Some VOID ->
     forall workingNodes w,
       let w' := after_synthesis o parentA parentB workingNodes
                   (Returns child (d_reasoning d)) w in
       nodes (react w') = nodes (react w) ++ [child] /\
       links (react w') =
         links (react w) ++ newLinks parentA parentB child workingNodes /\
       emergencyCoolDownRef w' = false).
Proof.
  intros Hk Hr. exists (newNode o parentA parentB currentGen d).
  unfold evolveThinkers. rewrite Hk, Hr. cbn [negb parse_text].
  repeat split; try reflexivity.
  all: apply after_synthesis_birth;
    destruct (is_void _) eqn:E; auto;
    apply is_void_archetype in E; cbn in E; contradiction.
Qed.

Lemma client_returns_reply_unvalidated_witness :
  exists child,
    evolveThinkers nameless_oracle (seed "seed-x" "X" MYSTIC 1 1 1 1 "d" "Harp" 0%float) (seed "seed-x" "X" MYSTIC 1 1 1 1 "d" "Harp" 0%float) 0 =
      Returns child (d_reasoning nameless_data) /\
    name child = None /\ is_void child = false.
Proof.
  destruct (client_returns_reply_unvalidated nameless_oracle (seed "seed-x" "X" MYSTIC 1 1 1 1 "d" "Harp" 0%float)
              (seed "seed-x" "X" MYSTIC 1 1 1 1 "d" "Harp" 0%float) 0 nameless_data eq_refl eq_refl)
    as (child & He & _ & Hn & Ha & _).
  exists child. split; [exact He|]. split; [exact Hn|].
  unfold is_void. rewrite Ha. reflexivity.
Defined.

(** ** The pruning sort *)

Section SortHead.

Context {A : Type} (cmp : A -> A -> Z) (dom : A -> Prop).

Hypothesis cmp_total :
  forall a b, dom a -> dom b -> (cmp a b <= 0 \/ cmp b a <= 0)%Z.
Hypothesis cmp_trans :
  forall a b c, dom a -> dom b -> dom c ->
    (cmp a b <= 0 -> cmp b c <= 0 -> cmp a c <= 0)%Z.



End SortHead.






Lemma insert_In {A : Type} (cmp : A -> A -> Z) (x y : A) (s : list A) :
  In y (Js.insert cmp x s) -> y = x \/ In y s.
Proof.
  induction s as [|z s IH]; simpl.
  - intros [<-|[]]. auto.
  - destruct (cmp x z <=? 0)%Z; simpl.
    + intros [<-|[<-|H]]; auto.
    + intros [<-|H]; auto. destruct (IH H); auto.
Qed.

Lemma sort_In {A : Type} (cmp : A -> A -> Z) (x : A) (l : list A) :
  In x (Js.sort cmp l) -> In x l.
Proof.
  induction l as [|y l IH]; simpl; [auto|].
  intros H. apply insert_In in H as [->|H]; auto.
Qed.

(** [sort] puts an element of the array first, whoever orders it. *)
Lemma sorted_first_In o l v : sorted_first o l = Some v -> In v l.
Proof.
  unfold sorted_first. destruct (forallb numeric l).
  - destruct (Js.sort compareNodes l) as [|h t] eqn:Es; [discriminate|].
    intros H. injection H as <-. apply (sort_In compareNodes).
    rewrite Es. left. reflexivity.
  - apply nth_error_In.
Qed.

Lemma sorted_first_total o l :
  l <> [] -> exists v, sorted_first o l = Some v.
Proof.
  intros Hl. unfold sorted_first. destruct (forallb numeric l).
  - destruct (Js.sort compareNodes l) as [|h t] eqn:Es.
    + destruct l as [|x l]; [contradiction|]. simpl in Es.
      destruct (Js.sort compareNodes l) as [|y r]; simpl in Es;
        [discriminate|].
      destruct (compareNodes x y <=? 0)%Z; discriminate.
    + exists h. reflexivity.
  - destruct (nth_error l (engine_first o mod length l)) as [v|] eqn:E.
    + exists v. reflexivity.
    + apply nth_error_None in E.
      assert (length l <> 0) by (destruct l; [contradiction|discriminate]).
      pose proof (Nat.mod_upper_bound (engine_first o) (length l)). lia.
Qed.


(** ** Pruning *)

Lemma filter_keeps_others (v : string) (ls : list Link) :
  filter (fun l => negb (endpointId (source l) =? v) &&
                   negb (endpointId (target l) =? v)) ls =
  filter (fun l => negb (names v l)) ls.
Proof.
  apply filter_ext. intros l. unfold names. now rewrite negb_orb.
Qed.

Lemma pruning_below o w :
  length (nodes (stateRef w)) < MAX_NODES ->
  pruning o w = Some (nodes (stateRef w), w).
Proof.
  intros H. unfold pruning.
  destruct (MAX_NODES <=? _)%nat eqn:E; [|reflexivity].
  apply Nat.leb_le in E. lia.
Qed.

Lemma pruning_full o w v :
  MAX_NODES <= length (nodes (stateRef w)) ->
  sorted_first o (nodes (stateRef w)) = Some v ->
  let survivors := filter (fun n => negb (id n =? id v)) (nodes (stateRef w)) in
  exists w1,
    pruning o w = Some (survivors, w1) /\
    nodes (react w1) = survivors /\
    links (react w1) = filter (fun l => negb (names (id v) l)) (links (react w)) /\
    logs (react w1) =
      Js.slice_last 50 (logs (react w)) ++
      [ {| log_id := fst (stamp o 0); timestamp := snd (stamp o 0);
           message := (Js.show (name v) ++
                       " has transcended to the Void to make space.")%string;
           log_type := system |} ] /\
    stateRef w1 = stateRef w /\
    localStorage w1 = localStorage w /\
    requests w1 = requests w /\
    emergencyCoolDownRef w1 = emergencyCoolDownRef w /\
    fluxPhaseRef w1 = fluxPhaseRef w /\
    isPaused (react w1) = isPaused (react w) /\
    isFluxMode (react w1) = isFluxMode (react w) /\
    timeMultiplier (react w1) = timeMultiplier (react w).
Proof.
  intros Hfull Hs survivors. unfold pruning.
  apply Nat.leb_le in Hfull. rewrite Hfull, Hs.
  eexists. split; [reflexivity|]. cbn.
  rewrite filter_keeps_others. repeat split.
Qed.

Lemma pruning_total o w :
  exists workingNodes w1, pruning o w = Some (workingNodes, w1).
Proof.
  destruct (Nat.lt_ge_cases (length (nodes (stateRef w))) MAX_NODES) as [H|H].
  - eexists _, _. apply pruning_below, H.
  - destruct (sorted_first_total o (nodes (stateRef w))) as (v & Es).
    + intros E. rewrite E in H. unfold MAX_NODES in H. simpl in H. lia.
    + destruct (pruning_full o w v H Es) as (w1 & Hp & _).
      eexists _, _. exact Hp.
Qed.


(** ** The evolution step *)

Lemma resample_some n a rs : forall b,
  2 <= n ->
  Exists (fun r => r mod n <> a) (b :: rs) ->
  exists b', resample n a (b mod n) rs = Some b' /\ b' < n /\ b' <> a.
Proof.
  induction rs as [|r rs IH]; intros b Hn He.
  - inversion He as [? ? Hb|? ? Hr]; subst; [|inversion Hr].
    exists (b mod n). simpl.
    destruct (b mod n =? a)%nat eqn:E.
    + apply Nat.eqb_eq in E. contradiction.
    + simpl. repeat split; auto. apply Nat.mod_upper_bound. lia.
  - simpl. destruct (b mod n =? a)%nat eqn:E.
    + replace (1 <? n)%nat with true by (symmetry; apply Nat.ltb_lt; lia).
      simpl. apply IH; [assumption|].
      inversion He as [? ? Hb|? ? Hr]; subst; [|assumption].
      apply Nat.eqb_eq in E. contradiction.
    + simpl. exists (b mod n). repeat split.
      * apply Nat.mod_upper_bound. lia.
      * apply Nat.eqb_neq. exact E.
Qed.

Lemma performEvolutionStep_synthesis o w workingNodes w1 :
  pruning o w = Some (workingNodes, w1) ->
  2 <= length workingNodes ->
  distinct_draw o (length workingNodes) ->
  exists a b parentA parentB,
    a <> b /\
    nth_error workingNodes a = Some parentA /\
    nth_error workingNodes b = Some parentB /\
    performEvolutionStep o w =
      Completed
        (after_synthesis o parentA parentB workingNodes
           (evolveThinkers o parentA parentB
              (Z.max (generation parentA) (generation parentB)))
           (awaiting o parentA parentB w1)).
Proof.
  intros Hp Hlen Hd. unfold performEvolutionStep, before_await. rewrite Hp.
  replace (length workingNodes <? 2)%nat with false
    by (symmetry; apply Nat.ltb_ge; lia).
  set (n := length workingNodes) in *.
  set (a := draw_parentA o mod n) in *.
  destruct (resample_some n a (redraws o) (draw_parentB o) Hlen Hd)
    as (b & Hb & Hlt & Hne).
  rewrite Hb.
  assert (Ha : a < n) by (apply Nat.mod_upper_bound; lia).
  destruct (nth_error workingNodes a) as [parentA|] eqn:Ea;
    [|apply nth_error_None in Ea; fold n in Ea; lia].
  destruct (nth_error workingNodes b) as [parentB|] eqn:Eb;
    [|apply nth_error_None in Eb; fold n in Eb; lia].
  exists a, b, parentA, parentB. repeat split; auto.
Qed.

Lemma awaited_frame o w :
  react (awaited o w) = react w /\
  fluxPhaseRef (awaited o w) = fluxPhaseRef w /\
  emergencyCoolDownRef (awaited o w) = emergencyCoolDownRef w /\
  localStorage (awaited o w) = localStorage w /\
  requests (awaited o w) = requests w /\
  suspended (awaited o w) = suspended w /\
  (apiKey o = true -> stateRef (awaited o w) = react w).
Proof.
  unfold awaited. destruct (apiKey o).
  - destruct (rerender_frame w) as (H1 & H2 & H3 & H4 & H5 & H6 & _ & H8).
    repeat split; auto.
  - repeat split. discriminate.
Qed.

(** The call and the [await] leave the store and the storage slot; they
    add an entry to the log and a request to the record. *)
Lemma awaiting_frame o parentA parentB w :
  nodes (react (awaiting o parentA parentB w)) = nodes (react w) /\
  links (react (awaiting o parentA parentB w)) = links (react w) /\
  localStorage (awaiting o parentA parentB w) = localStorage w /\
  requests (awaiting o parentA parentB w) =
    {| req_parentA := parentA; req_parentB := parentB;
       req_currentGen := Z.max (generation parentA) (generation parentB) |}
    :: requests w /\
  emergencyCoolDownRef (awaiting o parentA parentB w) = emergencyCoolDownRef w /\
  fluxPhaseRef (awaiting o parentA parentB w) = fluxPhaseRef w /\
  isPaused (react (awaiting o parentA parentB w)) = isPaused (react w) /\
  isFluxMode (react (awaiting o parentA parentB w)) = isFluxMode (react w) /\
  timeMultiplier (react (awaiting o parentA parentB w)) = timeMultiplier (react w) /\
  suspended (awaiting o parentA parentB w) = suspended w.
Proof.
  unfold awaiting.
  destruct (awaited_frame o (calling o parentA parentB w))
    as (H1 & H2 & H3 & H4 & H5 & H6 & _).
  rewrite H1, H2, H3, H4, H5, H6. repeat split.
Qed.


(** Whatever the synthesis gives, the step only appends to the store. *)
Lemma after_synthesis_appends o parentA parentB workingNodes r w :
  let w' := after_synthesis o parentA parentB workingNodes r w in
  exists added addedLinks,
    nodes (react w') = nodes (react w) ++ added /\
    links (react w') = links (react w) ++ addedLinks /\
    length added <= 1.
Proof.
  destruct r as [|child reasoning]; cbv zeta.
  - exists [], []. cbn. rewrite !app_nil_r. auto.
  - destruct (is_void child) eqn:Hv.
    + exists [], []. unfold after_synthesis. rewrite Hv. cbn.
      rewrite !app_nil_r. auto.
    + destruct (after_synthesis_birth o parentA parentB workingNodes child
                  reasoning w Hv) as (Hn & Hl & _).
      exists [child], (newLinks parentA parentB child workingNodes).
      auto.
Qed.

Lemma slice_last_snoc {A : Type} (k : nat) (l : list A) (x : A) :
  Js.slice_last (S k) (l ++ [x]) = Js.slice_last k l ++ [x].
Proof.
  unfold Js.slice_last. rewrite length_app. simpl.
  replace (length l + 1 - S k) with (length l - k) by lia.
  rewrite skipn_app.
  replace (length l - k - length l) with 0 by lia. reflexivity.
Qed.

(** A failed synthesis leaves the store and the storage slot as they were,
    raises the cooldown flag and ends the log with a [conflict] entry. *)
Lemma after_synthesis_failed o parentA parentB workingNodes r w :
  failed r = true ->
  let w' := after_synthesis o parentA parentB workingNodes r w in
  nodes (react w') = nodes (react w) /\
  links (react w') = links (react w) /\
  localStorage w' = localStorage w /\
  requests w' = requests w /\
  emergencyCoolDownRef w' = true.
Proof.
  destruct r as [|child reasoning]; simpl; intros Hf.
  - repeat split.
  - rewrite Hf. repeat split.
Qed.

Lemma after_synthesis_void_logs o parentA parentB workingNodes child reasoning w :
  is_void child = true ->
  exists older,
    logs (react (after_synthesis o parentA parentB workingNodes
                   (Returns child reasoning) w)) =
    older ++
    [ entry o 2 "Tesla Protocol: Sanctuary Declared. Syntropic Override engaged."
        conflict;
      entry o 3 ("Broadcasting Impossible Truth: " ++ dquote
                 ++ IMPOSSIBLE_TRUTH_axiom ++ dquote)%string system ].
Proof.
  intros Hv. unfold after_synthesis. rewrite Hv.
  rewrite addLog_logs, addLog_logs.
  change 50 with (S 49) at 1. rewrite slice_last_snoc.
  eexists. rewrite <- app_assoc. reflexivity.
Qed.

Lemma distinct_NoDup (l : list string) : distinct l = true -> NoDup l.
Proof.
  induction l as [|x r IH]; simpl; intros H; constructor.
  - apply andb_prop in H as [H _]. intros Hin.
    assert (E : existsb (String.eqb x) r = true).
    { apply existsb_exists. exists x. split; [exact Hin|apply String.eqb_refl]. }
    rewrite E in H. discriminate.
  - apply IH. apply andb_prop in H as [_ H]. exact H.
Qed.




(** What pruning leaves untouched, and what it may only shrink. *)
Lemma pruning_frame o w workingNodes w1 :
  pruning o w = Some (workingNodes, w1) ->
  stateRef w1 = stateRef w /\
  localStorage w1 = localStorage w /\
  requests w1 = requests w /\
  emergencyCoolDownRef w1 = emergencyCoolDownRef w /\
  fluxPhaseRef w1 = fluxPhaseRef w /\
  isPaused (react w1) = isPaused (react w) /\
  isFluxMode (react w1) = isFluxMode (react w) /\
  timeMultiplier (react w1) = timeMultiplier (react w).
Proof.
  intros Hp.
  destruct (Nat.lt_ge_cases (length (nodes (stateRef w))) MAX_NODES) as [H|H].
  - rewrite (pruning_below o w H) in Hp. injection Hp as _ <-. repeat split.
  - destruct (sorted_first o (nodes (stateRef w))) as [v|] eqn:Es.
    + destruct (pruning_full o w v H Es) as (w2 & Hp2 & _ & _ & _ & Hrest).
      rewrite Hp in Hp2. injection Hp2 as _ <-. exact Hrest.
    + unfold pruning in Hp. rewrite Es in Hp.
      apply Nat.leb_le in H. rewrite H in Hp. discriminate.
Qed.

Lemma pruning_timers o w workingNodes w1 :
  pruning o w = Some (workingNodes, w1) ->
  timeoutId w1 = timeoutId w /\
  effectRuns w1 = effectRuns w /\
  strayTimers w1 = strayTimers w /\
  suspended w1 = suspended w.
Proof.
  unfold pruning. destruct (MAX_NODES <=? _)%nat.
  - destruct (sorted_first o (nodes (stateRef w))); [|discriminate].
    intros H. injection H as _ <-. repeat split.
  - intros H. injection H as _ <-. repeat split.
Qed.

Lemma pruning_store o w workingNodes w1 :
  nodes (stateRef w) = nodes (react w) ->
  pruning o w = Some (workingNodes, w1) ->
  nodes (react w1) = workingNodes /\
  incl (nodes (react w1)) (nodes (react w)) /\
  incl (links (react w1)) (links (react w)) /\
  length (nodes (react w1)) <= length (nodes (react w)) /\
  (length (nodes (react w)) < MAX_NODES ->
   nodes (react w1) = nodes (react w) /\ links (react w1) = links (react w)) /\
  (MAX_NODES <= length (nodes (react w)) ->
   exists v, In v (nodes (react w)) /\
     nodes (react w1) = filter (fun n => negb (id n =? id v)) (nodes (react w)) /\
     links (react w1) = filter (fun l => negb (names (id v) l)) (links (react w))).
Proof.
  intros Hsync Hp.
  destruct (Nat.lt_ge_cases (length (nodes (react w))) MAX_NODES) as [H|H].
  - rewrite <- Hsync in H.
    rewrite (pruning_below o w H) in Hp. injection Hp as <- <-.
    rewrite Hsync in *.
    split; [reflexivity|]. split; [apply incl_refl|].
    split; [apply incl_refl|]. split; [lia|]. split; [auto|]. intros H'. lia.
  - rewrite <- Hsync in *.
    destruct (sorted_first_total o (nodes (stateRef w))) as (v & Es).
    + intros E. rewrite E in H. unfold MAX_NODES in H. simpl in H. lia.
    + destruct (pruning_full o w v H Es) as (w2 & Hp2 & Hn & Hl & _).
      rewrite Hp in Hp2. injection Hp2 as -> <-.
      assert (Hv : In v (nodes (stateRef w))).
      { apply (sorted_first_In o). exact Es. }
      rewrite Hn, Hl.
      split; [reflexivity|].
      split; [intros x Hx; apply filter_In in Hx; tauto|].
      split; [intros x Hx; apply filter_In in Hx; tauto|].
      split; [apply filter_length_le|].
      split; [intros H'; lia|].
      intros _. exists v. auto.
Qed.

(** C6: when the client answers with a VOID entity, the step adds no entity
    and no edge to the store (it holds what pruning left), raises the
    cooldown flag, writes nothing to the storage slot, and ends the log with
    a [conflict] and a [system] entry. *)
Theorem void_result_leaves_store o w :
  returns_void o ->
  exists workingNodes w1,
    pruning o (render w) = Some (workingNodes, w1) /\
    (2 <= length workingNodes ->
     distinct_draw o (length workingNodes) ->
     exists w',
       performEvolutionStep o (render w) = Completed w' /\
       nodes (react w') = nodes (react w1) /\
       links (react w') = links (react w1) /\
       incl (nodes (react w')) (nodes (react w)) /\
       incl (links (react w')) (links (react w)) /\
       emergencyCoolDownRef w' = true /\
       localStorage w' = localStorage w /\
       length (requests w') = S (length (requests w)) /\
       exists older,
         logs (react w') =
         older ++
         [ entry o 2
             "Tesla Protocol: Sanctuary Declared. Syntropic Override engaged."
             conflict;
           entry o 3 ("Broadcasting Impossible Truth: " ++ dquote
                      ++ IMPOSSIBLE_TRUTH_axiom ++ dquote)%string system ]).
Proof.
  intros Hvoid.
  destruct (pruning_total o (render w)) as (workingNodes & w1 & Hp).
  exists workingNodes, w1. split; [exact Hp|]. intros Hlen Hd.
  destruct (performEvolutionStep_synthesis o (render w) workingNodes w1 Hp Hlen Hd)
    as (a & b & parentA & parentB & _ & _ & _ & Hstep).
  destruct (Hvoid parentA parentB
              (Z.max (generation parentA) (generation parentB)))
    as (child & reasoning & Hr & Hv).
  rewrite Hr in Hstep.
  destruct (pruning_frame _ _ _ _ Hp) as (_ & Hls & Hrq & _).
  destruct (pruning_store o (render w) _ _ eq_refl Hp) as (_ & Hin & Hil & _).
  cbn [render react] in Hin, Hil.
  destruct (after_synthesis_failed o parentA parentB workingNodes
              (Returns child reasoning) (awaiting o parentA parentB w1) Hv)
    as (Hn & Hl & Hs & Hq & Hc).
  destruct (after_synthesis_void_logs o parentA parentB workingNodes child
              reasoning (awaiting o parentA parentB w1) Hv) as (older & Hlog).
  destruct (awaiting_frame o parentA parentB w1)
    as (Han & Hal & Has & Haq & _).
  eexists. split; [exact Hstep|].
  rewrite Hn, Hl, Hs, Hq, Hc, Han, Hal, Has, Haq. cbn. rewrite Hls, Hrq.
  repeat split; auto. exists older. exact Hlog.
Qed.

Lemma void_result_leaves_store_witness :
  exists w',
    performEvolutionStep void_oracle (render fresh_start) = Completed w' /\
    nodes (react w') = INITIAL_NODES /\
    links (react w') = [] /\
    emergencyCoolDownRef w' = true.
Proof.
  assert (Hvoid : returns_void void_oracle).
  { intros parentA parentB currentGen. eexists _, _. split; reflexivity. }
  destruct (void_result_leaves_store void_oracle fresh_start Hvoid)
    as (workingNodes & w1 & Hp & H).
  vm_compute in Hp. injection Hp as <- <-.
  destruct H as (w' & Hstep & Hn & Hl & _ & _ & Hc & _).
  - simpl. lia.
  - left. vm_compute. discriminate.
  - exists w'. auto.
Defined.

(** ** Ticks *)

Section Ticks.

Variable Math_sin : float -> float.
Variable Math_pow : float -> float -> float.

(** The state in which a run of [loop] starts. *)
Lemma tick_start_frame t w :
  let w0 := snd (fire t (rerender w)) in
  react w0 = react w /\
  stateRef w0 = react w /\
  fluxPhaseRef w0 = fluxPhaseRef w /\
  emergencyCoolDownRef w0 = emergencyCoolDownRef w /\
  localStorage w0 = localStorage w /\
  requests w0 = requests w /\
  suspended w0 = suspended w.
Proof.
  cbv zeta.
  destruct (fire_frame t (rerender w)) as (H1 & H2 & H3 & H4 & H5 & H6 & H7).
  destruct (rerender_frame w) as (R1 & R2 & R3 & R4 & R5 & R6 & _ & R8).
  rewrite H1, H2, H3, H4, H5, H6, H7. repeat split; assumption.
Qed.

(** The delay computation touches the multiplier and the flux phase only. *)
Lemma calculate_delay_frame w d w1 :
  calculate_delay Math_sin Math_pow w = (d, w1) ->
  stateRef w1 = stateRef w /\
  nodes (react w1) = nodes (react w) /\
  links (react w1) = links (react w) /\
  logs (react w1) = logs (react w) /\
  isPaused (react w1) = isPaused (react w) /\
  isFluxMode (react w1) = isFluxMode (react w) /\
  localStorage w1 = localStorage w /\
  requests w1 = requests w /\
  emergencyCoolDownRef w1 = emergencyCoolDownRef w.
Proof.
  unfold calculate_delay.
  destruct (emergencyCoolDownRef w) eqn:Ec;
    [|destruct (isFluxMode (stateRef w));
      [|destruct (negb (timeMultiplier (stateRef w) =? 1)%float)]];
    intros H; injection H as <- <-; cbn; auto 10.
Qed.


End Ticks.

(** ** Consistency of the store *)

Lemma ancestors_app ls ms c : ancestors (ls ++ ms) c = ancestors ls c ++ ancestors ms c.
Proof. unfold ancestors. now rewrite filter_app, map_app. Qed.

(** Removing the edges that name [v] removes [v] from the ancestors of any
    other entity, and nothing else. *)
Lemma ancestors_without ls v c :
  c <> v ->
  ancestors (filter (fun l => negb (names v l)) ls) c =
  filter (fun p => negb (p =? v)) (ancestors ls c).
Proof.
  intros Hc. unfold ancestors. induction ls as [|l ls IH]; simpl; [reflexivity|].
  unfold names at 1.
  destruct (is_ancestry l && (endpointId (target l) =? c)) eqn:Ea.
  - apply andb_prop in Ea as [Ha Et]. apply String.eqb_eq in Et.
    assert (Etv : (endpointId (target l) =? v) = false).
    { apply String.eqb_neq. congruence. }
    rewrite Etv, orb_false_r. simpl.
    destruct (endpointId (source l) =? v); simpl.
    + exact IH.
    + rewrite Ha, Et, String.eqb_refl. simpl. now rewrite IH.
  - destruct (negb _); simpl; [|exact IH]. rewrite Ea. exact IH.
Qed.

(** Consistency reads the edges through their endpoints and kind only. *)
Lemma ancestors_edge ls ls' c :
  map edge ls = map edge ls' -> ancestors ls c = ancestors ls' c.
Proof.
  revert ls'. unfold ancestors.
  induction ls as [|l ls IH]; intros [|l' ls'] H; try discriminate;
    [reflexivity|].
  simpl in H. injection H as Hs Ht _ Hk Hrest.
  simpl. unfold is_ancestry. rewrite Hk, Ht.
  destruct (_ && _); simpl; [rewrite Hs; f_equal|]; apply IH, Hrest.
Qed.

Lemma consistent_edge ns ls ls' :
  map edge ls = map edge ls' -> consistent ns ls -> consistent ns ls'.
Proof.
  intros H [Hu Hp Hd Ha]. constructor; auto.
  - intros c Hc. rewrite <- (ancestors_edge _ _ _ H). auto.
  - intros c Hc. rewrite <- (ancestors_edge _ _ _ H). auto.
Qed.

Lemma edge_cleanLink ls : map edge (map cleanLink ls) = map edge ls.
Proof.
  rewrite map_map. apply map_ext. intros l. unfold edge, cleanLink. simpl.
  destruct (source l), (target l); reflexivity.
Qed.

Lemma find_node_id ns i n : find_node ns i = Some n -> id n = i.
Proof.
  unfold find_node. intros H. apply find_some in H as [_ H].
  apply String.eqb_eq, H.
Qed.

Lemma edge_resolveLinks ns ls ls' :
  resolveLinks ns ls = Some ls' -> map edge ls' = map edge ls.
Proof.
  revert ls'. induction ls as [|l ls IH]; simpl; intros ls' H.
  - injection H as <-. reflexivity.
  - destruct (resolveLink ns l) as [l1|] eqn:El; [|discriminate].
    destruct (resolveLinks ns ls) as [ls1|]; [|discriminate].
    injection H as <-. simpl. rewrite (IH ls1 eq_refl). f_equal.
    unfold resolveLink in El.
    destruct (resolve ns (source l)) as [s|] eqn:Es; [|discriminate].
    destruct (resolve ns (target l)) as [t|] eqn:Et; [|discriminate].
    injection El as <-. unfold edge. simpl.
    assert (Hr : forall e e', resolve ns e = Some e' ->
                   endpointId e' = endpointId e).
    { intros [i|n] e'; simpl; intros Hr.
      - destruct (find_node ns i) as [n|] eqn:Ef; [|discriminate].
        injection Hr as <-. simpl. apply (find_node_id _ _ _ Ef).
      - injection Hr as <-. reflexivity. }
    rewrite (Hr _ _ Es), (Hr _ _ Et). reflexivity.
Qed.

(** Filtering a population keeps its identifiers distinct. *)
Lemma ids_unique_filter (keep : ThinkerNode -> bool) (ns : list ThinkerNode) :
  NoDup (map id ns) -> NoDup (map id (filter keep ns)).
Proof.
  intros Hnd. induction ns as [|n ns IH]; simpl; [constructor|].
  simpl in Hnd. apply NoDup_cons_iff in Hnd as [Hn Hns].
  destruct (keep n); simpl; auto.
  apply NoDup_cons; auto.
  intros Hin. apply Hn. apply in_map_iff in Hin as (m & E & Hm).
  apply filter_In in Hm as [Hm _]. apply in_map_iff. exists m. auto.
Qed.

(** Eviction keeps the store consistent. *)
Lemma consistent_evict ns ls v :
  consistent ns ls ->
  consistent (filter (fun n => negb (id n =? v)) ns)
             (filter (fun l => negb (names v l)) ls).
Proof.
  intros [Hu Hp Hd Ha]. constructor.
  - apply ids_unique_filter, Hu.
  - intros c ps Hc. apply filter_In in Hc as [Hc _]. apply Hp, Hc.
  - intros c Hc. apply filter_In in Hc as [Hc Hv].
    apply negb_true_iff, String.eqb_neq in Hv.
    rewrite (ancestors_without ls v (id c) Hv). apply NoDup_filter, Hd, Hc.
  - intros c Hc. apply filter_In in Hc as [Hc Hv].
    apply negb_true_iff, String.eqb_neq in Hv.
    rewrite (ancestors_without ls v (id c) Hv).
    intros q Hq. apply filter_In in Hq as [Hq _]. apply (Ha c Hc q Hq).
Qed.

Lemma ancestors_bridges parentA parentB child workingNodes c :
  ancestors (harmonic_bridges parentA parentB child workingNodes) c = [].
Proof.
  unfold harmonic_bridges, ancestors.
  induction (Js.slice_first 2 _) as [|t l IH]; simpl; auto.
Qed.

Lemma ancestors_newLinks parentA parentB child workingNodes c :
  ancestors (newLinks parentA parentB child workingNodes) c =
  if id child =? c then [id parentA; id parentB] else [].
Proof.
  unfold newLinks. rewrite ancestors_app.
  assert (E : ancestors (if resonant child
                         then harmonic_bridges parentA parentB child workingNodes
                         else []) c = []).
  { destruct (resonant child); [apply ancestors_bridges|reflexivity]. }
  rewrite E, app_nil_r. unfold ancestors. simpl.
  destruct (id child =? c); reflexivity.
Qed.

(** No ancestry edge points to an identifier that no edge names. *)
Lemma ancestors_unknown ls c :
  ~ In c (endpoints ls) -> ancestors ls c = [].
Proof.
  unfold ancestors, endpoints.
  induction ls as [|l ls IH]; simpl; intros H; [reflexivity|].
  destruct (endpointId (target l) =? c) eqn:Et.
  - apply String.eqb_eq in Et. exfalso. apply H. right. left. exact Et.
  - rewrite andb_false_r. apply IH. intros Hin. apply H. right. right.
    exact Hin.
Qed.

(** A birth keeps the store consistent, provided the identifier is new to
    the store as it is when the child is committed. *)
Lemma consistent_birth ns ls parentA parentB child workingNodes :
  consistent ns ls ->
  id parentA <> id parentB ->
  ~ In (id child) (map id ns) ->
  ~ In (id child) (endpoints ls) ->
  parents child = Some [id parentA; id parentB] ->
  consistent (ns ++ [child])
             (ls ++ newLinks parentA parentB child workingNodes).
Proof.
  intros [Hu Hp Hd Ha] Hne Hid Hend Hpar.
  assert (Hother : forall c, In c ns -> (id child =? id c) = false).
  { intros c Hin. apply String.eqb_neq. intros E. apply Hid. rewrite E.
    apply in_map, Hin. }
  constructor.
  - rewrite map_app. apply NoDup_app; [exact Hu|repeat constructor; intros []|].
    intros a Ha' [<-|[]]. contradiction.
  - intros c ps Hin Hps. apply in_app_or in Hin as [Hin|[<-|[]]].
    + apply (Hp c ps Hin Hps).
    + rewrite Hpar in Hps. injection Hps as <-. eauto.
  - intros c Hin. rewrite ancestors_app, ancestors_newLinks.
    apply in_app_or in Hin as [Hin|[<-|[]]].
    + rewrite (Hother c Hin), app_nil_r. apply Hd, Hin.
    + rewrite String.eqb_refl, (ancestors_unknown ls (id child) Hend). simpl.
      constructor; [|constructor; [intros []|constructor]].
      intros [E|[]]. apply Hne. symmetry. exact E.
  - intros c Hin. rewrite ancestors_app, ancestors_newLinks.
    apply in_app_or in Hin as [Hin|[<-|[]]].
    + rewrite (Hother c Hin), app_nil_r. apply Ha, Hin.
    + rewrite String.eqb_refl, (ancestors_unknown ls (id child) Hend).
      unfold parentsOf. rewrite Hpar. apply incl_refl.
Qed.

Lemma resample_distinct n a rs : forall b0 b,
  resample n a b0 rs = Some b -> 1 < n -> b <> a.
Proof.
  induction rs as [|r rs IH]; intros b0 b H Hn; simpl in H;
    destruct (b0 =? a)%nat eqn:E; simpl in H;
    replace (1 <? n)%nat with true in H by (symmetry; apply Nat.ltb_lt, Hn);
    try discriminate.
  - injection H as <-. apply Nat.eqb_neq, E.
  - eapply IH; eauto.
  - injection H as <-. apply Nat.eqb_neq, E.
Qed.

Lemma evolveThinkers_child o parentA parentB currentGen child reasoning :
  evolveThinkers o parentA parentB currentGen = Returns child reasoning ->
  id child = generatedId o /\
  parents child = Some [id parentA; id parentB] /\
  generation child = (currentGen + 1)%Z.
Proof.
  unfold evolveThinkers. destruct (apiKey o); simpl; [|discriminate].
  destruct (apiReply o) as [|t]; [|destruct (parse_text t)];
    intros H; injection H as <- _; repeat split.
Qed.

Lemma evolveThinkers_returns o parentA parentB currentGen child reasoning :
  evolveThinkers o parentA parentB currentGen = Returns child reasoning ->
  apiKey o = true.
Proof.
  unfold evolveThinkers. destruct (apiKey o); simpl; [auto|discriminate].
Qed.

Lemma fresh_spec o w :
  fresh o w = true ->
  ~ In (generatedId o) (map id (nodes (react w))) /\
  ~ In (generatedId o) (endpoints (links (react w))).
Proof.
  unfold fresh, known, mentioned. intros H. apply negb_true_iff in H.
  assert (Hn : forall l, In (generatedId o) l ->
            existsb (String.eqb (generatedId o)) l = true).
  { intros l Hin. apply existsb_exists. eexists.
    split; [exact Hin|apply String.eqb_refl]. }
  split; intros Hin.
  - rewrite Hn in H; [discriminate|]. apply in_or_app. left.
    apply in_or_app. left. exact Hin.
  - rewrite Hn in H; [discriminate|]. apply in_or_app. right. exact Hin.
Qed.

Lemma endpoints_incl ls ms : incl ls ms -> incl (endpoints ls) (endpoints ms).
Proof.
  unfold endpoints. intros H x Hx. apply in_flat_map in Hx as (l & Hl & Hx).
  apply in_flat_map. exists l. auto.
Qed.

Lemma distinct_positions (ns : list ThinkerNode) a b parentA parentB :
  NoDup (map id ns) -> a <> b ->
  nth_error ns a = Some parentA -> nth_error ns b = Some parentB ->
  id parentA <> id parentB.
Proof.
  intros Hnd Hab Ha Hb E. apply Hab.
  apply (proj1 (NoDup_nth_error (map id ns)) Hnd).
  - rewrite length_map. apply nth_error_Some. congruence.
  - rewrite (map_nth_error id _ _ Ha), (map_nth_error id _ _ Hb). congruence.
Qed.

Lemma after_synthesis_suspended o parentA parentB workingNodes r w :
  suspended (after_synthesis o parentA parentB workingNodes r w) = suspended w.
Proof.
  destruct r as [|child reasoning]; simpl; [reflexivity|].
  destruct (is_void child); [reflexivity|].
  destruct (resonant child), (significant child); simpl; try reflexivity;
    unfold handleSave; destruct (setItem_ok o); reflexivity.
Qed.

(** The storage slot after the step: what it held, or a snapshot of the
    state rendered last. *)
Lemma after_synthesis_storage o parentA parentB workingNodes r w :
  stored_consistent (localStorage w) ->
  (failed r = false -> consistent (nodes (stateRef w)) (links (stateRef w))) ->
  stored_consistent
    (localStorage (after_synthesis o parentA parentB workingNodes r w)).
Proof.
  intros Hs Hc. destruct r as [|child reasoning]; simpl; [exact Hs|].
  simpl in Hc. destruct (is_void child); [exact Hs|].
  specialize (Hc eq_refl).
  destruct (resonant child), (significant child); simpl; try exact Hs;
    unfold handleSave; destruct (setItem_ok o); simpl; try exact Hs;
    apply (consistent_edge _ (links (stateRef w)));
    auto using edge_cleanLink; symmetry; apply edge_cleanLink.
Qed.

(** What follows the [await] keeps the store consistent, whatever has
    happened to the store during the [await], provided the new identifier is
    new to it. *)
Lemma settle_store o parentA parentB workingNodes w :
  consistent (nodes (react w)) (links (react w)) ->
  stored_consistent (localStorage w) ->
  id parentA <> id parentB ->
  ~ In (generatedId o) (map id (nodes (react w))) ->
  ~ In (generatedId o) (endpoints (links (react w))) ->
  let w' := settle o parentA parentB workingNodes w in
  consistent (nodes (react w')) (links (react w')) /\
  stored_consistent (localStorage w') /\
  suspended w' = suspended w.
Proof.
  intros Hc Hs Hne Hid Hend. cbv zeta. unfold settle.
  destruct (awaited_frame o w) as (Hr & _ & _ & Hst & _ & Hsu & Hsr).
  set (w2 := awaited o w) in *.
  split; [|split].
  - destruct (evolveThinkers o parentA parentB _) as [|child reasoning] eqn:Hev.
    + simpl. rewrite Hr. exact Hc.
    + destruct (is_void child) eqn:Hv.
      * destruct (after_synthesis_failed o parentA parentB workingNodes
                    (Returns child reasoning) w2 Hv) as (-> & -> & _).
        rewrite Hr. exact Hc.
      * destruct (after_synthesis_birth o parentA parentB workingNodes child
                    reasoning w2 Hv) as (-> & -> & _).
        rewrite Hr.
        destruct (evolveThinkers_child _ _ _ _ _ _ Hev) as (Ei & Hpar & _).
        apply consistent_birth; auto; rewrite Ei; assumption.
  - apply after_synthesis_storage; [rewrite Hst; exact Hs|].
    intros Hf.
    destruct (evolveThinkers o parentA parentB _) as [|child reasoning] eqn:Hev;
      [discriminate|].
    rewrite (Hsr (evolveThinkers_returns _ _ _ _ _ _ Hev)). exact Hc.
  - rewrite after_synthesis_suspended. exact Hsu.
Qed.

(** What precedes the [await] keeps the store consistent and chooses two
    entities. *)
Lemma before_await_store o w :
  nodes (stateRef w) = nodes (react w) ->
  consistent (nodes (react w)) (links (react w)) ->
  match before_await o w with
  | Returned w1 =>
      consistent (nodes (react w1)) (links (react w1)) /\ part_of w w1
  | Called parentA parentB workingNodes w1 =>
      consistent (nodes (react w1)) (links (react w1)) /\ part_of w w1 /\
      id parentA <> id parentB
  | _ => True
  end.
Proof.
  intros Hsync Hc. unfold before_await.
  destruct (pruning o w) as [[workingNodes w1]|] eqn:Hp; [|exact I].
  destruct (pruning_store _ _ _ _ Hsync Hp)
    as (Hwn & Hincl & Hincl' & _ & Hbelow & Hfull).
  destruct (pruning_frame _ _ _ _ Hp) as (_ & Hst & _).
  destruct (pruning_timers _ _ _ _ Hp) as (_ & _ & _ & Hsu).
  assert (Hc1 : consistent (nodes (react w1)) (links (react w1))).
  { destruct (Nat.lt_ge_cases (length (nodes (react w))) MAX_NODES) as [H|H].
    - destruct (Hbelow H) as [-> ->]. exact Hc.
    - destruct (Hfull H) as (v & _ & -> & ->). apply consistent_evict, Hc. }
  assert (Hpart : part_of w w1) by (repeat split; assumption).
  destruct (length workingNodes <? 2)%nat eqn:Hlen; [split; assumption|].
  apply Nat.ltb_ge in Hlen.
  destruct (resample _ _ _ _) as [b|] eqn:Hb; [|exact I].
  apply resample_distinct in Hb; [|lia].
  destruct (nth_error workingNodes _) as [parentA|] eqn:Ea; [|exact I].
  destruct (nth_error workingNodes b) as [parentB|] eqn:Eb; [|exact I].
  split; [exact Hc1|]. split; [exact Hpart|].
  subst workingNodes.
  eapply distinct_positions; [apply Hc1| |exact Ea|exact Eb].
  intros E. apply Hb. symmetry. exact E.
Qed.

Lemma part_of_fresh o w w1 :
  part_of w w1 ->
  ~ In (generatedId o) (map id (nodes (react w))) ->
  ~ In (generatedId o) (endpoints (links (react w))) ->
  ~ In (generatedId o) (map id (nodes (react w1))) /\
  ~ In (generatedId o) (endpoints (links (react w1))).
Proof.
  intros (Hn & Hl & _) Hid Hend. split; intros H.
  - apply Hid. apply in_map_iff in H as (n & E & Hin). apply in_map_iff.
    exists n. auto.
  - apply Hend. apply (endpoints_incl _ _ Hl), H.
Qed.

Lemma consistent_initial : consistent INITIAL_NODES [].
Proof.
  constructor.
  - apply distinct_NoDup. reflexivity.
  - intros c ps Hc Hp. simpl in Hc.
    destruct Hc as [<-|[<-|[<-|[<-|[]]]]]; discriminate.
  - intros c Hc. constructor.
  - intros c Hc q [].
Qed.

Lemma mount_invariant item now :
  stored_consistent item -> store_invariant (mount item now).
Proof.
  intros Hs. split; [|split; [exact Hs|constructor]].
  destruct item as [[|s]|]; simpl in *; try contradiction;
    try apply consistent_initial.
  destruct (s_nodes s), (s_links s); try contradiction. exact Hs.
Qed.

Lemma handleSave_suspended silent ok st w :
  suspended (handleSave silent ok st w) = suspended w.
Proof. unfold handleSave. destruct ok, silent; reflexivity. Qed.

Lemma handleSave_invariant silent ok st w :
  store_invariant w ->
  nodes (stateRef w) = nodes (react w) ->
  links (stateRef w) = links (react w) ->
  store_invariant (handleSave silent ok st w).
Proof.
  intros (Hc & Hs & Hp) Hn Hl.
  split; [|split; [|rewrite handleSave_suspended; exact Hp]];
    unfold handleSave; destruct ok, silent; simpl; auto;
    rewrite Hn, Hl; apply (consistent_edge _ (links (react w)));
    auto; symmetry; apply edge_cleanLink.
Qed.

Lemma restore_store {A : Type} (v : option A) set w :
  (forall a w0, nodes (react (set a w0)) = nodes (react w0) /\
                links (react (set a w0)) = links (react w0) /\
                localStorage (set a w0) = localStorage w0 /\
                suspended (set a w0) = suspended w0) ->
  nodes (react (restore v set w)) = nodes (react w) /\
  links (react (restore v set w)) = links (react w) /\
  localStorage (restore v set w) = localStorage w /\
  suspended (restore v set w) = suspended w.
Proof. intros H. destruct v; simpl; auto. Qed.

Lemma handleLoad_invariant st w :
  store_invariant w -> store_invariant (handleLoad st w).
Proof.
  intros (Hc & Hs & Hp). unfold handleLoad.
  destruct (localStorage w) as [[|s]|] eqn:E; simpl in Hs; try contradiction.
  - destruct (s_nodes s) as [ns|] eqn:En, (s_links s) as [ls|] eqn:El;
      try contradiction.
    unfold store_invariant.
    repeat match goal with
    | |- context [restore ?v ?f ?x] =>
        let H := fresh in
        destruct (restore_store v f x) as (-> & -> & -> & ->);
        [intros; repeat split|]
    end.
    simpl. rewrite E. simpl. rewrite En, El. auto.
  - split; [exact Hc|]. simpl. rewrite E. split; [exact I|exact Hp].
Qed.

Lemma Forall_without {A : Type} (P : A -> Prop) (k : nat) (l : list A) :
  Forall P l -> Forall P (without k l).
Proof.
  intros H. unfold without. apply Forall_app. split.
  - rewrite Forall_forall in *. intros x Hx. apply H.
    rewrite <- (firstn_skipn k l). apply in_or_app. left. exact Hx.
  - rewrite Forall_forall in *. intros x Hx. apply H.
    rewrite <- (firstn_skipn (S k) l). apply in_or_app. right. exact Hx.
Qed.

Section Invariant.

Variable Math_sin : float -> float.
Variable Math_pow : float -> float -> float.

Lemma calculate_delay_timers w d w1 :
  calculate_delay Math_sin Math_pow w = (d, w1) ->
  suspended w1 = suspended w /\
  timeoutId w1 = timeoutId w /\
  effectRuns w1 = effectRuns w /\
  strayTimers w1 = strayTimers w.
Proof.
  unfold calculate_delay.
  destruct (emergencyCoolDownRef w);
    [|destruct (isFluxMode (stateRef w));
      [|destruct (negb (timeMultiplier (stateRef w) =? 1)%float)]];
    intros H; injection H as <- <-; repeat split.
Qed.

Lemma calculate_delay_suspended w d w1 :
  calculate_delay Math_sin Math_pow w = (d, w1) ->
  suspended w1 = suspended w.
Proof. intros H. apply (calculate_delay_timers _ _ _ H). Qed.

Lemma finish_invariant run d w :
  store_invariant w -> store_invariant (finish run d w).
Proof.
  intros H. unfold store_invariant.
  destruct (finish_frame run d w) as (-> & _ & _ & _ & -> & _ & ->). exact H.
Qed.

(** The state in which the evolution step of a run starts. *)
Lemma loop_start w t d w0 :
  store_invariant w ->
  calculate_delay Math_sin Math_pow (snd (fire t (rerender w))) = (d, w0) ->
  store_invariant w0 /\
  nodes (stateRef w0) = nodes (react w0) /\
  nodes (react w0) = nodes (react w) /\
  links (react w0) = links (react w) /\
  emergencyCoolDownRef w0 = emergencyCoolDownRef w.
Proof.
  intros (Hc & Hs & Hp) Ed.
  destruct (tick_start_frame t w) as (Hr & Hsr & _ & Hcd & Hst & _ & Hsu).
  cbv zeta in *.
  destruct (calculate_delay_frame _ _ _ _ _ Ed)
    as (Hsr0 & Hn0 & Hl0 & _ & _ & _ & Hst0 & _ & Hcd0).
  pose proof (calculate_delay_suspended _ _ _ Ed) as Hsu0.
  rewrite Hr in Hn0, Hl0. rewrite Hsr in Hsr0. rewrite Hst in Hst0.
  rewrite Hsu in Hsu0. rewrite Hcd in Hcd0.
  split; [|split; [|split; [|split]]]; auto.
  - unfold store_invariant. rewrite Hn0, Hl0, Hst0, Hsu0. auto.
  - rewrite Hsr0, Hn0. reflexivity.
Qed.

Lemma step_invariant o w w' :
  store_invariant w ->
  nodes (stateRef w) = nodes (react w) ->
  ~ In (generatedId o) (map id (nodes (react w))) ->
  ~ In (generatedId o) (endpoints (links (react w))) ->
  performEvolutionStep o w = Completed w' ->
  store_invariant w'.
Proof.
  intros (Hc & Hs & Hp) Hsync Hid Hend Hstep.
  unfold performEvolutionStep in Hstep.
  pose proof (before_await_store o w Hsync Hc) as Hb.
  destruct (before_await o w) as [w1|parentA parentB workingNodes w1| |];
    try discriminate; injection Hstep as <-.
  - destruct Hb as (Hc1 & _ & _ & Hst & Hsu).
    unfold store_invariant. rewrite Hst, Hsu. auto.
  - destruct Hb as (Hc1 & Hpart & Hne).
    destruct (part_of_fresh o w w1 Hpart Hid Hend) as (Hid1 & Hend1).
    destruct Hpart as (_ & _ & Hst & Hsu).
    destruct (settle_store o parentA parentB workingNodes w1)
      as (Hc2 & Hs2 & Hsu2); auto.
    + rewrite Hst. exact Hs.
    + unfold store_invariant. rewrite Hsu2, Hsu. auto.
Qed.

Lemma tick_invariant t o w w' :
  store_invariant w -> fresh o w = true ->
  tick_of Math_sin Math_pow t o w = Completed w' ->
  store_invariant w'.
Proof.
  intros Hinv Hf Ht. apply fresh_spec in Hf as (Hid & Hend).
  unfold tick_of, loop in Ht.
  destruct (calculate_delay Math_sin Math_pow (snd (fire t (rerender w))))
    as [d w0] eqn:Ed.
  destruct (loop_start w t d w0 Hinv Ed) as (Hinv0 & Hsync & Hn0 & Hl0 & _).
  destruct (negb _).
  - destruct (performEvolutionStep o w0) as [w2| |] eqn:Hstep; try discriminate.
    injection Ht as <-. apply finish_invariant.
    apply (step_invariant o w0 w2 Hinv0); auto.
    + rewrite Hn0. exact Hid.
    + rewrite Hl0. exact Hend.
  - injection Ht as <-. apply finish_invariant, Hinv0.
Qed.

(** A run that is suspended has chosen two entities. *)
Lemma begin_invariant t o w w' :
  store_invariant w ->
  begin_tick Math_sin Math_pow t o w = Suspended w' ->
  store_invariant w'.
Proof.
  intros Hinv Ht. unfold begin_tick, begin in Ht.
  destruct (calculate_delay Math_sin Math_pow (snd (fire t (rerender w))))
    as [d w0] eqn:Ed.
  destruct (loop_start w t d w0 Hinv Ed)
    as ((Hc0 & Hs0 & Hp0) & Hsync & _).
  destruct (isPaused _); [discriminate|].
  pose proof (before_await_store o w0 Hsync Hc0) as Hb.
  destruct (before_await o w0) as [w1|parentA parentB workingNodes w1| |];
    try discriminate.
  destruct (apiKey o); [|discriminate].
  injection Ht as <-. destruct Hb as (Hc1 & (_ & _ & Hst & Hsu) & Hne).
  split; [exact Hc1|]. split; [simpl; rewrite Hst; exact Hs0|].
  simpl. constructor; [exact Hne|]. rewrite Hsu. exact Hp0.
Qed.

(** The answer to a suspended run finds a store that other events may have
    changed, and keeps it consistent. *)
Lemma resume_invariant o k w w' :
  store_invariant w -> fresh o w = true ->
  resume o k w = Some w' ->
  store_invariant w'.
Proof.
  intros (Hc & Hs & Hp) Hf Hres. apply fresh_spec in Hf as (Hid & Hend).
  unfold resume in Hres.
  destruct (nth_error (suspended w) k) as [p|] eqn:Ek; [|discriminate].
  injection Hres as <-. apply finish_invariant.
  assert (Hpp : two_parents p).
  { rewrite Forall_forall in Hp. apply Hp. apply (nth_error_In _ _ Ek). }
  destruct (settle_store o (p_parentA p) (p_parentB p) (p_workingNodes p)
              (set_suspended (without k (suspended w)) w))
    as (Hc2 & Hs2 & Hsu2); auto.
  unfold store_invariant. rewrite Hsu2. simpl.
  split; [exact Hc2|]. split; [exact Hs2|]. apply Forall_without, Hp.
Qed.

Lemma rerender_invariant w : store_invariant w -> store_invariant (rerender w).
Proof.
  unfold store_invariant.
  destruct (rerender_frame w) as (-> & _ & _ & _ & -> & _ & _ & ->). auto.
Qed.

Lemma reachable_invariant w :
  reachable Math_sin Math_pow w -> store_invariant w.
Proof.
  induction 1 as [now|w now _ IH|w _ IH
                 |w t o w' _ IH Hf _ Ht|w t o w' _ IH _ Ht
                 |w o k w' _ IH _ Hf Hres
                 |w ok st _ IH|w ok st _ IH
                 |w st _ IH|w _ IH|w _ IH|w w' _ IH Hf].
  - apply mount_invariant. exact I.
  - apply mount_invariant, IH.
  - apply rerender_invariant, IH.
  - exact (tick_invariant t o w w' IH Hf Ht).
  - exact (begin_invariant t o w w' IH Ht).
  - exact (resume_invariant o k w w' IH Hf Hres).
  - apply handleSave_invariant; [apply rerender_invariant, IH| |];
      rewrite rerender_stateRef, rerender_react; reflexivity.
  - unfold backup.
    apply (handleSave_invariant true ok st (rerender w));
      [apply rerender_invariant, IH| |];
      rewrite rerender_stateRef, rerender_react; reflexivity.
  - apply handleLoad_invariant, rerender_invariant, IH.
  - apply rerender_invariant in IH. exact IH.
  - apply rerender_invariant in IH. exact IH.
  - unfold forceLink in Hf. rewrite rerender_react in Hf.
    destruct (resolveLinks _ _) as [ls|] eqn:Er; [|discriminate].
    injection Hf as <-. apply rerender_invariant in IH.
    destruct IH as (Hc & Hs & Hp). rewrite rerender_react in Hc.
    split; [|split; [exact Hs|exact Hp]].
    cbn [render setLinks update react with_links nodes links].
    rewrite rerender_react.
    apply (consistent_edge _ (links (react w))); auto.
    symmetry. apply (edge_resolveLinks _ _ _ Er).
Qed.

Lemma before_await_cooldown o w :
  match before_await o w with
  | Returned w1 | Called _ _ _ w1 =>
      emergencyCoolDownRef w1 = emergencyCoolDownRef w
  | _ => True
  end.
Proof.
  unfold before_await.
  destruct (pruning o w) as [[workingNodes w1]|] eqn:Hp; [|exact I].
  destruct (pruning_frame _ _ _ _ Hp) as (_ & _ & _ & Hcd & _).
  destruct (_ <? 2)%nat; [exact Hcd|].
  destruct (resample _ _ _ _); [|exact I].
  destruct (nth_error workingNodes _); [|exact I].
  destruct (nth_error workingNodes _); [|exact I].
  exact Hcd.
Qed.

(** No event ever finds the cooldown flag raised: [loop] lowers it in the
    run that raised it, before it schedules the next run, and without
    leaving the task in which it was raised. *)
Lemma cooldown_never_observed w :
  reachable Math_sin Math_pow w -> emergencyCoolDownRef w = false.
Proof.
  induction 1 as [now|w now _ IH|w _ IH
                 |w t o w' _ IH Hf _ Ht|w t o w' Hr IH _ Ht
                 |w o k w' _ IH _ Hf Hres
                 |w ok st _ IH|w ok st _ IH
                 |w st _ IH|w _ IH|w _ IH|w w' _ IH Hf].
  - reflexivity.
  - reflexivity.
  - rewrite rerender_cooldown. exact IH.
  - exact (loop_clears_cooldown _ _ _ _ _ _ Ht).
  - unfold begin_tick, begin in Ht.
    destruct (calculate_delay Math_sin Math_pow (snd (fire t (rerender w))))
      as [d w0] eqn:Ed.
    destruct (loop_start w t d w0 (reachable_invariant w Hr) Ed)
      as (_ & _ & _ & _ & Hcd).
    destruct (isPaused _); [discriminate|].
    pose proof (before_await_cooldown o w0) as Hb.
    destruct (before_await o w0) as [w1|parentA parentB workingNodes w1| |];
      try discriminate.
    destruct (apiKey o); [|discriminate].
    injection Ht as <-. simpl. rewrite Hb, Hcd. exact IH.
  - unfold resume in Hres.
    destruct (nth_error (suspended w) k) as [p|]; [|discriminate].
    injection Hres as <-. apply finish_frame.
  - rewrite handleSave_cooldown, rerender_cooldown. exact IH.
  - unfold backup. simpl. rewrite handleSave_cooldown, rerender_cooldown.
    exact IH.
  - rewrite handleLoad_cooldown, rerender_cooldown. exact IH.
  - simpl. rewrite rerender_cooldown. exact IH.
  - simpl. rewrite rerender_cooldown. exact IH.
  - unfold forceLink in Hf.
    destruct (resolveLinks _ _); [|discriminate].
    injection Hf as <-. simpl. rewrite rerender_cooldown. exact IH.
Qed.

(** A run of [loop] into whose [await] no event falls is the run up to the
    [await] followed at once by the answer. *)
Lemma loop_by_halves run o w :
  loop Math_sin Math_pow run o w =
  match begin Math_sin Math_pow run o w with
  | Ran r => r
  | Suspended w1 =>
      match resume o 0 w1 with
      | Some w' => Completed w'
      | None => Rejected
      end
  end.
Proof.
  unfold loop, begin, performEvolutionStep, before_await.
  destruct (calculate_delay Math_sin Math_pow w) as [d w0].
  destruct (isPaused (stateRef w)); cbn [negb]; [reflexivity|].
  destruct (pruning o w0) as [[workingNodes w1]|]; [|reflexivity].
  destruct (length workingNodes <? 2)%nat; [reflexivity|].
  destruct (resample _ _ _ _) as [b|]; [|reflexivity].
  destruct (nth_error workingNodes _) as [parentA|]; [|reflexivity].
  destruct (nth_error workingNodes b) as [parentB|]; [|reflexivity].
  destruct (apiKey o) eqn:Hk; reflexivity.
Qed.

Lemma ticks_reachable os : forall w w',
  reachable Math_sin Math_pow w ->
  ticks Math_sin Math_pow os w = Some w' ->
  reachable Math_sin Math_pow w'.
Proof.
  induction os as [|o os IH]; cbn [ticks]; intros w w' Hr Ht.
  - injection Ht as <-. exact Hr.
  - destruct (fresh o w) eqn:Hf; [|discriminate].
    destruct (armed Current (rerender w)) eqn:Ha; [|discriminate].
    cbn [andb] in Ht.
    destruct (tick Math_sin Math_pow o w) as [w1| |] eqn:E; try discriminate.
    apply (IH w1 w'); auto. apply (reach_tick _ _ w Current o w1); auto.
Qed.

(** C3, amended: in every reachable state, whatever fell into the [await]s
    of the steps that led to it, identifiers are unique; an entity without
    parents has no ancestry edge pointing to it; an entity with parents has
    two distinct ones and at most two ancestry edges pointing to it, no two
    from the same entity and each from one of the two.  The answer to a
    suspended step commits the child together with its two ancestry edges,
    one from each of the entities chosen when the step began. *)
Theorem ancestry_edges_come_from_recorded_parents w :
  reachable Math_sin Math_pow w ->
  let ns := nodes (react w) in
  let ls := links (react w) in
  NoDup (map id ns) /\
  (forall c, In c ns -> parents c = None -> ancestors ls (id c) = []) /\
  (forall c ps, In c ns -> parents c = Some ps ->
     exists a b,
       ps = [a; b] /\ a <> b /\
       NoDup (ancestors ls (id c)) /\
       incl (ancestors ls (id c)) [a; b] /\
       length (ancestors ls (id c)) <= 2) /\
  (forall o k w' child reasoning,
     fresh o w = true ->
     resume o k w = Some w' ->
     exists p,
       nth_error (suspended w) k = Some p /\
       id (p_parentA p) <> id (p_parentB p) /\
       (evolveThinkers o (p_parentA p) (p_parentB p)
          (Z.max (generation (p_parentA p)) (generation (p_parentB p)))
        = Returns child reasoning ->
        is_void child = false ->
        nodes (react w') = nodes (react w) ++ [child] /\
        parents child = Some [id (p_parentA p); id (p_parentB p)] /\
        ancestors (links (react w')) (id child) =
          [id (p_parentA p); id (p_parentB p)])).
Proof.
  intros Hr. destruct (reachable_invariant w Hr) as ([Hu Hp Hd Ha] & _ & Hpp).
  cbv zeta. split; [exact Hu|]. split; [|split].
  - intros c Hc Hn. specialize (Ha c Hc). unfold parentsOf in Ha.
    rewrite Hn in Ha. destruct (ancestors _ _) as [|x l]; [reflexivity|].
    destruct (Ha x). left. reflexivity.
  - intros c ps Hc Hps. destruct (Hp c ps Hc Hps) as (a & b & -> & Hab).
    exists a, b. specialize (Ha c Hc). unfold parentsOf in Ha.
    rewrite Hps in Ha. repeat split; auto.
    apply (NoDup_incl_length (Hd c Hc) Ha).
  - intros o k w' child reasoning Hf Hres. unfold resume in Hres.
    destruct (nth_error (suspended w) k) as [p|] eqn:Ek; [|discriminate].
    injection Hres as <-. exists p. split; [reflexivity|].
    assert (Hne : id (p_parentA p) <> id (p_parentB p)).
    { rewrite Forall_forall in Hpp. apply (Hpp p), (nth_error_In _ _ Ek). }
    split; [exact Hne|]. intros Hev Hv.
    apply fresh_spec in Hf as (Hid & Hend).
    destruct (evolveThinkers_child _ _ _ _ _ _ Hev) as (Ei & Hpar & _).
    set (ws := set_suspended (without k (suspended w)) w).
    destruct (finish_frame (p_run p) (p_safeDelay p)
                (settle o (p_parentA p) (p_parentB p) (p_workingNodes p) ws))
      as (-> & _).
    unfold settle. rewrite Hev.
    destruct (after_synthesis_birth o (p_parentA p) (p_parentB p)
                (p_workingNodes p) child reasoning (awaited o ws) Hv)
      as (-> & -> & _).
    destruct (awaited_frame o ws) as (-> & _).
    split; [reflexivity|]. split; [exact Hpar|].
    cbn [ws set_suspended react].
    rewrite ancestors_app, ancestors_newLinks, String.eqb_refl.
    rewrite ancestors_unknown; [reflexivity|]. rewrite Ei. exact Hend.
Qed.

End Invariant.

(** The states of a load that falls into the [await] of a step. *)
Lemma loaded_while_awaiting_reachable :
  reachable (fun x => x) (fun x _ => x)
    (handleLoad (no_stamp 0) (rerender awaiting_second)) /\
  reachable (fun x => x) (fun x _ => x) loaded_while_awaiting.
Proof.
  assert (Hr : reachable (fun x => x) (fun x _ => x)
                 (handleLoad (no_stamp 0) (rerender awaiting_second))).
  { apply reach_load.
    apply (reach_begin _ _ born_first Current (drawing 4 0 (birth_oracle "c2")));
      [|vm_compute; reflexivity|vm_compute; reflexivity].
    apply (reach_tick _ _ fresh_start Current (birth_oracle "c1"));
      [apply reach_start|vm_compute; reflexivity|vm_compute; reflexivity
      |vm_compute; reflexivity]. }
  split; [exact Hr|].
  apply (reach_resume _ _
           (handleLoad (no_stamp 0) (rerender awaiting_second))
           (birth_oracle "c2") 0);
    [exact Hr|reflexivity|vm_compute; reflexivity|vm_compute; reflexivity].
Qed.

(** After the load the store holds the four seeds; the answer commits [c2]
    with its two ancestry edges, one of them from [c1], which the load has
    removed from the store. *)
Lemma ancestry_edges_come_from_recorded_parents_witness :
  reachable (fun x => x) (fun x _ => x) loaded_while_awaiting /\
  (exists c,
     nodes (react loaded_while_awaiting) = INITIAL_NODES ++ [c] /\
     id c = "c2" /\
     parents c = Some ["c1"; "seed-source"] /\
     ancestors (links (react loaded_while_awaiting)) (id c)
       = ["c1"; "seed-source"] /\
     present (nodes (react loaded_while_awaiting)) "c1" = false) /\
  NoDup (map id (nodes (react loaded_while_awaiting))) /\
  (forall c ps, In c (nodes (react loaded_while_awaiting)) ->
     parents c = Some ps ->
     exists a b,
       ps = [a; b] /\ a <> b /\
       NoDup (ancestors (links (react loaded_while_awaiting)) (id c)) /\
       incl (ancestors (links (react loaded_while_awaiting)) (id c)) [a; b] /\
       length (ancestors (links (react loaded_while_awaiting)) (id c)) <= 2).
Proof.
  destruct loaded_while_awaiting_reachable as (Hr3 & Hr).
  split; [exact Hr|]. split.
  - destruct (ancestry_edges_come_from_recorded_parents
                (fun x => x) (fun x _ => x) _ Hr3) as (_ & _ & _ & Hcommit).
    destruct (nth_error (nodes (react loaded_while_awaiting)) 4)
      as [c|] eqn:Ec; [|vm_compute in Ec; discriminate].
    destruct (Hcommit (birth_oracle "c2") 0 loaded_while_awaiting c
                (Some "Synthesis."))
      as (p & Ek & _ & Hc);
      [vm_compute; reflexivity|vm_compute; reflexivity|].
    vm_compute in Ek. injection Ek as <-.
    vm_compute in Ec. injection Ec as <-.
    destruct Hc as (Hn & Hpar & Hanc);
      [vm_compute; reflexivity|vm_compute; reflexivity|].
    eexists. split; [exact Hn|]. split; [reflexivity|].
    split; [exact Hpar|]. split; [exact Hanc|]. vm_compute. reflexivity.
  - destruct (ancestry_edges_come_from_recorded_parents
                (fun x => x) (fun x _ => x) loaded_while_awaiting Hr)
      as (Hu & _ & Hp & _).
    split; [exact Hu|exact Hp].
Defined.

(** C3 as stated fails after an eviction: forty-two births from a fresh
    start, all from the first two entities of the store, lead to a state in
    which the first seed has been evicted and its child [c1], whose parents
    are that seed and the second one, keeps a single ancestry edge. *)
Lemma evicted_parent_leaves_one_edge :
  (forall Math_sin Math_pow, reachable Math_sin Math_pow after_eviction) /\
  exists c,
    In c (nodes (react after_eviction)) /\
    id c = "c1" /\
    parents c = Some ["seed-source"; "seed-harmonic"] /\
    ancestors (links (react after_eviction)) (id c) = ["seed-harmonic"] /\
    ~ two_ancestry_edges (nodes (react after_eviction))
                         (links (react after_eviction)).
Proof.
  split.
  - intros Math_sin Math_pow.
    apply (ticks_reachable Math_sin Math_pow (births 1 42) fresh_start).
    + apply reach_start.
    + vm_compute. reflexivity.
  - assert (Hc : exists c, nth_error (nodes (react after_eviction)) 3 = Some c /\
                   id c = "c1" /\
                   parents c = Some ["seed-source"; "seed-harmonic"] /\
                   ancestors (links (react after_eviction)) (id c)
                     = ["seed-harmonic"]).
    { eexists. split; [vm_compute; reflexivity|].
      repeat split; vm_compute; reflexivity. }
    destruct Hc as (c & Hn & Hi & Hp & Ha). exists c.
    assert (Hin : In c (nodes (react after_eviction)))
      by (apply (nth_error_In _ _ Hn)).
    repeat split; auto.
    intros H. destruct (H c _ Hin Hp) as [_ E]. rewrite Ha in E. discriminate.
Qed.


(** ** Pruning where a complexity is missing *)


(** ** Save and load *)

Lemma cleanLink_by_id l : by_id (cleanLink l).
Proof.
  unfold by_id, cleanLink. simpl. destruct (source l), (target l); exact I.
Qed.

(** C8: loading what a save wrote gives back the entities of the saved
    state, unchanged, and its edges with every endpoint reduced to an
    identifier: the same endpoints, strengths and kinds.  This holds for a
    saved state whose links carry node objects, and whatever happened to the
    live state between the save and the load, so long as the storage slot
    still holds what the save wrote. *)
Theorem save_then_load_restores_store silent st st' w between :
  localStorage between = localStorage (handleSave silent true st (render w)) ->
  let loaded := handleLoad st' between in
  nodes (react loaded) = nodes (react w) /\
  links (react loaded) = map cleanLink (links (react w)) /\
  map edge (links (react loaded)) = map edge (links (react w)) /\
  Forall by_id (links (react loaded)).
Proof.
  intros Hs. cbv zeta. unfold handleLoad. rewrite Hs.
  assert (E : localStorage (handleSave silent true st (render w)) =
              Some (Stored
                {| s_nodes := Some (nodes (react w));
                   s_links := Some (map cleanLink (links (react w)));
                   s_logs := Some (logs (react w));
                   s_isFluxMode := Some (isFluxMode (react w));
                   s_timeMultiplier := Some (Js.json (timeMultiplier (react w)));
                   s_fluxPhase := Some (Js.json (fluxPhaseRef w));
                   s_version := Some "1.2" |})).
  { unfold handleSave. destruct silent; reflexivity. }
  rewrite E. cbn.
  split; [reflexivity|]. split; [reflexivity|].
  split; [apply edge_cleanLink|].
  apply Forall_forall. intros l Hl. apply in_map_iff in Hl as (l0 & <- & _).
  apply cleanLink_by_id.
Qed.

Lemma save_then_load_restores_store_witness :
  exists l,
    nth_error (links (react resolved_birth)) 0 = Some l /\
    ~ by_id l /\
    let saved := handleSave false true (no_stamp 0) (render resolved_birth) in
    let loaded := handleLoad (no_stamp 1) (render (togglePause saved)) in
    nodes (react loaded) = nodes (react resolved_birth) /\
    Forall by_id (links (react loaded)).
Proof.
  eexists. split; [vm_compute; reflexivity|]. split; [intros H; exact H|].
  cbv zeta.
  destruct (save_then_load_restores_store false (no_stamp 0) (no_stamp 1)
              resolved_birth
              (render (togglePause
                 (handleSave false true (no_stamp 0) (render resolved_birth))))
              eq_refl) as (Hn & _ & _ & Hb).
  split; [exact Hn|exact Hb].
Defined.

(** ** The paused loop *)

Section Paused.

Variable Math_sin : float -> float.
Variable Math_pow : float -> float -> float.

(** C10: a tick of the paused scheduler in flux mode advances the flux
    phase by 0.1 and sets the multiplier to ten to the power of three times
    the sine of the new phase; it schedules the next run with the delay that
    follows from it, leaves the store, the log and the storage slot as they
    were and calls no synthesis. *)
Theorem paused_flux_tick_advances_phase o w :
  reachable Math_sin Math_pow w ->
  isPaused (react w) = true ->
  isFluxMode (react w) = true ->
  let phase := (fluxPhaseRef w + 0.1)%float in
  let multiplier := Math_pow 10%float (Math_sin phase * 3)%float in
  exists w',
    tick Math_sin Math_pow o w = Completed w' /\
    fluxPhaseRef w' = phase /\
    timeMultiplier (react w') = multiplier /\
    timeoutId w' =
      Some (Js.Math_max 750%float
              (Js.Math_min (EVOLUTION_INTERVAL_MS / multiplier)%float
                           60000%float)) /\
    nodes (react w') = nodes (react w) /\
    links (react w') = links (react w) /\
    logs (react w') = logs (react w) /\
    localStorage w' = localStorage w /\
    requests w' = requests w.
Proof.
  intros Hr Hp Hf. apply cooldown_never_observed in Hr.
  cbv zeta. unfold tick, tick_of. cbn [fire fst snd].
  destruct (rerender_frame w) as (Er & Es & Eph & Ecd & Est & Erq & _).
  set (x := rerender w) in *.
  unfold loop, calculate_delay.
  cbn [timer_fired stateRef emergencyCoolDownRef fluxPhaseRef].
  rewrite Ecd, Hr, Es, Hp, Hf. cbn [negb].
  eexists. split; [reflexivity|].
  unfold finish, schedule, own. cbn. rewrite Ecd, Hr, Nat.eqb_refl. cbn.
  rewrite Eph, Er, Est, Erq. repeat split.
Qed.

End Paused.

Lemma paused_flux_tick_advances_phase_witness :
  isPaused (react paused_in_flux) = true /\
  isFluxMode (react paused_in_flux) = true /\
  forall Math_sin Math_pow,
  exists w',
    tick Math_sin Math_pow throwing_oracle paused_in_flux = Completed w' /\
    fluxPhaseRef w' = 0.1%float /\
    nodes (react w') = INITIAL_NODES.
Proof.
  split; [reflexivity|]. split; [reflexivity|]. intros Math_sin Math_pow.
  destruct (paused_flux_tick_advances_phase Math_sin Math_pow throwing_oracle
              paused_in_flux) as (w' & Ht & Hph & _ & _ & Hn & _).
  - apply reach_flux, reach_pause, reach_start.
  - reflexivity.
  - reflexivity.
  - exists w'. split; [exact Ht|]. split; [exact Hph|exact Hn].
Defined.



(** * Further properties of the code *)

(** ** The population *)

Lemma filter_shorter (v : ThinkerNode) (ns : list ThinkerNode) :
  In v ns ->
  length (filter (fun n => negb (id n =? id v)) ns) < length ns.
Proof.
  induction ns as [|n ns IH]; simpl; [tauto|].
  intros [->|Hin].
  - rewrite String.eqb_refl. simpl.
    pose proof (filter_length_le (fun n => negb (id n =? id v)) ns). lia.
  - specialize (IH Hin). destruct (negb (id n =? id v)); simpl; lia.
Qed.

Lemma full_house_reachable Math_sin Math_pow :
  reachable Math_sin Math_pow full_house.
Proof.
  apply (ticks_reachable Math_sin Math_pow (births 1 41) fresh_start).
  - apply reach_start.
  - vm_compute. reflexivity.
Qed.

(** What precedes the [await] leaves room for one entity. *)
Lemma before_await_room o w :
  nodes (stateRef w) = nodes (react w) ->
  length (nodes (react w)) <= MAX_NODES ->
  match before_await o w with
  | Returned w1 => length (nodes (react w1)) <= MAX_NODES
  | Called _ _ _ w1 => length (nodes (react w1)) < MAX_NODES
  | _ => True
  end.
Proof.
  intros Hsync Hlen. unfold before_await.
  destruct (pruning o w) as [[workingNodes w1]|] eqn:Hp; [|exact I].
  destruct (pruning_store _ _ _ _ Hsync Hp)
    as (Hwn & _ & _ & Hle & Hbelow & Hfull).
  destruct (length workingNodes <? 2)%nat eqn:H2; [lia|].
  destruct (resample _ _ _ _) as [b|]; [|exact I].
  destruct (nth_error workingNodes _) as [parentA|]; [|exact I].
  destruct (nth_error workingNodes b) as [parentB|]; [|exact I].
  cbn [calling record_request addLog setLogs update react with_logs nodes].
  destruct (Nat.lt_ge_cases (length (nodes (react w))) MAX_NODES) as [H|H].
  - destruct (Hbelow H) as [-> _]. exact H.
  - destruct (Hfull H) as (v & Hv & -> & _).
    pose proof (filter_shorter v _ Hv). lia.
Qed.

Section Population.

Variable Math_sin : float -> float.
Variable Math_pow : float -> float -> float.

(** X1: a tick into whose [await] no other event falls keeps the
    population within [MAX_NODES]: at capacity the step evicts before it
    adds, and it adds one entity at most. *)
Theorem tick_within_capacity t o w w' :
  length (nodes (react w)) <= MAX_NODES ->
  tick_of Math_sin Math_pow t o w = Completed w' ->
  length (nodes (react w')) <= MAX_NODES.
Proof.
  intros Hlen Ht. unfold tick_of, loop in Ht.
  destruct (tick_start_frame t w) as (Hr & Hs & _). cbv zeta in Hr, Hs.
  set (ws := snd (fire t (rerender w))) in *.
  destruct (calculate_delay Math_sin Math_pow ws) as [d w0] eqn:Ed.
  destruct (calculate_delay_frame _ _ _ _ _ Ed) as (Hsr & Hn0 & _).
  rewrite Hr in Hn0. rewrite Hs in Hsr.
  assert (Hsync : nodes (stateRef w0) = nodes (react w0)).
  { rewrite Hsr, Hn0. reflexivity. }
  rewrite <- Hn0 in Hlen.
  destruct (negb _).
  - unfold performEvolutionStep in Ht.
    pose proof (before_await_room o w0 Hsync Hlen) as Hb.
    destruct (before_await o w0) as [w1|parentA parentB workingNodes w1| |];
      try discriminate; injection Ht as <-;
      rewrite (proj1 (finish_frame _ _ _)); [exact Hb|].
    unfold settle.
    destruct (after_synthesis_appends o parentA parentB workingNodes
                (evolveThinkers o parentA parentB
                   (Z.max (generation parentA) (generation parentB)))
                (awaited o w1)) as (added & addedLinks & -> & _ & Hadd).
    rewrite (proj1 (awaited_frame o w1)), length_app. lia.
  - injection Ht as <-. rewrite (proj1 (finish_frame _ _ _)). exact Hlen.
Qed.

(** X22: the answer to a suspended step appends its child and the new
    edges to the store as it is by then, whatever its size: the capacity is
    looked at before the [await] only. *)
Theorem resume_appends o k w w' p child reasoning :
  nth_error (suspended w) k = Some p ->
  evolveThinkers o (p_parentA p) (p_parentB p)
    (Z.max (generation (p_parentA p)) (generation (p_parentB p)))
  = Returns child reasoning ->
  is_void child = false ->
  resume o k w = Some w' ->
  nodes (react w') = nodes (react w) ++ [child] /\
  links (react w') =
    links (react w) ++
    newLinks (p_parentA p) (p_parentB p) child (p_workingNodes p) /\
  length (nodes (react w')) = S (length (nodes (react w))) /\
  suspended w' = without k (suspended w).
Proof.
  intros Ek Hev Hv Hres. unfold resume in Hres. rewrite Ek in Hres.
  injection Hres as <-.
  set (ws := set_suspended (without k (suspended w)) w).
  destruct (finish_frame (p_run p) (p_safeDelay p)
              (settle o (p_parentA p) (p_parentB p) (p_workingNodes p) ws))
    as (-> & _ & _ & _ & _ & _ & ->).
  unfold settle. rewrite Hev.
  destruct (after_synthesis_birth o (p_parentA p) (p_parentB p)
              (p_workingNodes p) child reasoning (awaited o ws) Hv)
    as (Hn & Hl & _).
  rewrite Hn, Hl, after_synthesis_suspended.
  destruct (awaited_frame o ws) as (-> & _ & _ & _ & _ & -> & _).
  cbn [ws set_suspended react suspended]. rewrite length_app. simpl.
  repeat split. lia.
Qed.

End Population.

Lemma tick_within_capacity_witness :
  length (nodes (react full_house)) <= MAX_NODES /\
  exists w',
    tick (fun x => x) (fun x _ => x) (birth_oracle "c42") full_house
      = Completed w' /\
    length (nodes (react w')) <= MAX_NODES.
Proof.
  assert (Hlen : length (nodes (react full_house)) <= MAX_NODES).
  { apply Nat.leb_le. vm_compute. reflexivity. }
  split; [exact Hlen|].
  exists (world_of (tick (fun x => x) (fun x _ => x) (birth_oracle "c42")
                      full_house)).
  assert (Ht : tick (fun x => x) (fun x _ => x) (birth_oracle "c42") full_house
               = Completed (world_of (tick (fun x => x) (fun x _ => x)
                                        (birth_oracle "c42") full_house))).
  { vm_compute. reflexivity. }
  split; [exact Ht|].
  exact (tick_within_capacity (fun x => x) (fun x _ => x) Current
           (birth_oracle "c42") full_house _ Hlen Ht).
Defined.

(** Two steps that overlap: a tick at capacity whose synthesis gives a VOID
    entity leaves forty-four entities and two pending timers; both fire
    before the service has answered, and both answers are births. *)
Lemma resume_appends_witness :
  reachable (fun x => x) (fun x _ => x) overlapping /\
  length (nodes (react overlapping)) = 45 /\
  exists w',
    resume (birth_oracle "c43") 0 overlapping = Some w' /\
    reachable (fun x => x) (fun x _ => x) w' /\
    length (nodes (react w')) = 46.
Proof.
  assert (Hr : reachable (fun x => x) (fun x _ => x) overlapping).
  { apply (reach_resume _ _ twice_suspended (birth_oracle "c42") 1);
      [|reflexivity|vm_compute; reflexivity|vm_compute; reflexivity].
    apply (reach_begin _ _ once_suspended (Stray 0) (birth_oracle "c43"));
      [|vm_compute; reflexivity|vm_compute; reflexivity].
    apply (reach_begin _ _ two_timers Current (birth_oracle "c42"));
      [|vm_compute; reflexivity|vm_compute; reflexivity].
    apply (reach_tick _ _ full_house Current void_oracle);
      [apply full_house_reachable|vm_compute; reflexivity
      |vm_compute; reflexivity|vm_compute; reflexivity]. }
  split; [exact Hr|]. split; [vm_compute; reflexivity|].
  exists (resumed_in (resume (birth_oracle "c43") 0 overlapping)).
  assert (Hres : resume (birth_oracle "c43") 0 overlapping
                 = Some (resumed_in (resume (birth_oracle "c43") 0 overlapping))).
  { vm_compute. reflexivity. }
  split; [exact Hres|].
  split.
  { apply (reach_resume _ _ overlapping (birth_oracle "c43") 0);
      [exact Hr|reflexivity|vm_compute; reflexivity|exact Hres]. }
  assert (Hp : exists p child reasoning,
             nth_error (suspended overlapping) 0 = Some p /\
             evolveThinkers (birth_oracle "c43") (p_parentA p) (p_parentB p)
               (Z.max (generation (p_parentA p)) (generation (p_parentB p)))
             = Returns child reasoning /\
             is_void child = false).
  { eexists _, _, _. split; [vm_compute; reflexivity|].
    split; vm_compute; reflexivity. }
  destruct Hp as (p & child & reasoning & Ek & Hev & Hv).
  destruct (resume_appends (birth_oracle "c43") 0 overlapping _ p child
              reasoning Ek Hev Hv Hres) as (_ & _ & -> & _).
  vm_compute. reflexivity.
Defined.

(** ** The links of a birth *)

Lemma In_firstn {A : Type} (k : nat) (l : list A) (x : A) :
  In x (firstn k l) -> In x l.
Proof.
  revert l. induction k as [|k IH]; intros [|y l]; simpl; try tauto.
  intros [->|H]; auto.
Qed.

Lemma firstn_filter_length {A : Type} (k : nat) (l : list A) :
  length (firstn k l) <= k.
Proof. rewrite length_firstn. lia. Qed.

(** X3: the links of a birth are the two ancestry edges, of strength 1, from
    the parents to the child, followed by at most two interaction edges of
    strength 2 from the child; there are none of the latter unless the
    child's logic and empathy add up to more than [RESONANCE_THRESHOLD], and
    each goes to an entity of the working population that is itself
    resonant and is neither parent. *)
Theorem newLinks_shape parentA parentB child workingNodes :
  exists bridges,
    newLinks parentA parentB child workingNodes =
      [ {| source := ById (id parentA); target := ById (id child);
           strength := 1; link_type := ancestry |};
        {| source := ById (id parentB); target := ById (id child);
           strength := 1; link_type := ancestry |} ] ++ bridges /\
    length bridges <= 2 /\
    (resonant child = false -> bridges = []) /\
    (forall l, In l bridges ->
       source l = ById (id child) /\ strength l = 2%Z /\
       link_type l = interaction /\
       exists t, In t workingNodes /\ target l = ById (id t) /\
         resonant t = true /\ id t <> id parentA /\ id t <> id parentB).
Proof.
  unfold newLinks. eexists. split; [reflexivity|].
  destruct (resonant child) eqn:Hr.
  - split; [|split; [discriminate|]].
    + unfold harmonic_bridges. rewrite length_map. apply firstn_filter_length.
    + intros l Hl. unfold harmonic_bridges in Hl.
      apply in_map_iff in Hl as (t & <- & Ht). simpl.
      repeat split. exists t. unfold Js.slice_first in Ht.
      apply In_firstn in Ht. apply filter_In in Ht as [Ht Hf].
      apply andb_prop in Hf as [Hf HB]. apply andb_prop in Hf as [Hres HA].
      apply negb_true_iff, String.eqb_neq in HA, HB. auto.
  - split; [simpl; lia|]. split; [reflexivity|]. intros l [].
Qed.

(** ** Loading and saving *)

(** X4: when the slot is empty, unparseable, or holds an object without both
    arrays, [handleLoad] changes nothing but the log, to which it adds one
    entry: [system] for an empty slot, [conflict] otherwise. *)
Theorem handleLoad_without_snapshot st w :
  match localStorage w with
  | Some (Stored s) => s_nodes s = None \/ s_links s = None
  | _ => True
  end ->
  let w' := handleLoad st w in
  nodes (react w') = nodes (react w) /\
  links (react w') = links (react w) /\
  isFluxMode (react w') = isFluxMode (react w) /\
  timeMultiplier (react w') = timeMultiplier (react w) /\
  fluxPhaseRef w' = fluxPhaseRef w /\
  localStorage w' = localStorage w /\
  exists e,
    logs (react w') = Js.slice_last 50 (logs (react w)) ++ [e] /\
    log_id e = fst st /\ timestamp e = snd st /\
    log_type e = match localStorage w with
                 | None => system
                 | Some _ => conflict
                 end.
Proof.
  intros H. cbv zeta. unfold handleLoad.
  destruct (localStorage w) as [[|s]|] eqn:E.
  - cbn. rewrite E. repeat split. eexists. repeat split.
  - destruct (s_nodes s), (s_links s);
      try (destruct H; discriminate);
      cbn; rewrite E; repeat split; eexists; repeat split.
  - cbn. rewrite E. repeat split. eexists. repeat split.
Qed.

Lemma handleLoad_without_snapshot_witness :
  nodes (react (handleLoad (no_stamp 0) fresh_start)) = INITIAL_NODES /\
  length (logs (react (handleLoad (no_stamp 0) fresh_start))) = 2.
Proof.
  destruct (handleLoad_without_snapshot (no_stamp 0) fresh_start I)
    as (Hn & _ & _ & _ & _ & _ & e & Hl & _).
  split; [exact Hn|]. rewrite Hl. reflexivity.
Defined.

(** X5: [handleSave] touches the storage slot and the log only.  The store and
    the scheduler's settings stay as they are; the slot is left alone when
    the write fails; a silent save leaves the log alone, and any other save
    adds one entry, [system] on success and [conflict] on failure. *)
Theorem handleSave_touches_slot_and_log_only silent ok st w :
  let w' := handleSave silent ok st w in
  nodes (react w') = nodes (react w) /\
  links (react w') = links (react w) /\
  isPaused (react w') = isPaused (react w) /\
  isFluxMode (react w') = isFluxMode (react w) /\
  timeMultiplier (react w') = timeMultiplier (react w) /\
  stateRef w' = stateRef w /\
  fluxPhaseRef w' = fluxPhaseRef w /\
  emergencyCoolDownRef w' = emergencyCoolDownRef w /\
  timeoutId w' = timeoutId w /\
  requests w' = requests w /\
  effectRuns w' = effectRuns w /\
  strayTimers w' = strayTimers w /\
  suspended w' = suspended w /\
  (ok = false -> localStorage w' = localStorage w) /\
  (silent = true -> logs (react w') = logs (react w)) /\
  (silent = false ->
   exists e,
     logs (react w') = Js.slice_last 50 (logs (react w)) ++ [e] /\
     log_type e = if ok then system else conflict).
Proof.
  cbv zeta. unfold handleSave.
  destruct ok, silent; cbn;
    repeat match goal with
           | |- _ /\ _ => split
           end;
    try reflexivity; try discriminate; intros _; eexists; split; reflexivity.
Qed.

(** A number read back from the storage slot, with its default. *)
Lemma json_or_default x d :
  (if truthy (Js.json x) then Js.json x else d) =
  (if negb (is_nan x || is_infinity x || Js.is_zero x) then x else d).
Proof.
  unfold Js.json, truthy.
  destruct (is_nan x || is_infinity x || Js.is_zero x) eqn:E.
  - reflexivity.
  - apply orb_false_elim in E as [E Ez]. apply orb_false_elim in E as [En _].
    rewrite Ez, En. reflexivity.
Qed.

(** X6: reloading the application on what a save wrote brings back the
    entities, the edges by identifier and the flux mode, resumes the log
    with one more [system] entry, and starts unpaused with the flag down, no
    suspended run, and the timer of the loop effect set to its initial
    delay.  The multiplier and the flux phase come back when they are finite
    and not zero; otherwise the multiplier starts at [1] and the phase at
    [0]. *)
Theorem reload_after_save silent st now w :
  let saved := handleSave silent true st (render w) in
  let w' := mount (localStorage saved) now in
  let kept x := negb (is_nan x || is_infinity x || Js.is_zero x) in
  nodes (react w') = nodes (react w) /\
  links (react w') = map cleanLink (links (react w)) /\
  isFluxMode (react w') = isFluxMode (react w) /\
  isPaused (react w') = false /\
  timeMultiplier (react w') =
    (if kept (timeMultiplier (react w))
     then timeMultiplier (react w) else 1%float) /\
  fluxPhaseRef w' =
    (if kept (fluxPhaseRef w) then fluxPhaseRef w else 0%float) /\
  (exists e, logs (react w') = logs (react w) ++ [e] /\
             log_type e = system /\ timestamp e = now) /\
  stateRef w' = react w' /\
  emergencyCoolDownRef w' = false /\
  timeoutId w' = Some (initialDelay (react w')) /\
  strayTimers w' = [] /\
  suspended w' = [].
Proof.
  cbv beta zeta. rewrite <- !json_or_default.
  unfold handleSave. destruct silent; cbn -[initialDelay Js.json truthy];
    repeat match goal with
           | |- _ /\ _ => split
           end;
    try reflexivity; eexists; repeat split.
Qed.

(** ** Delays *)








Lemma finish_timer run d w :
  (own run w = true /\
   timeoutId (finish run d w) = Some d /\
   strayTimers (finish run d w) = strayTimers w) \/
  (own run w = false /\
   timeoutId (finish run d w) = timeoutId w /\
   strayTimers (finish run d w) = d :: strayTimers w).
Proof.
  unfold finish, schedule.
  destruct (emergencyCoolDownRef w).
  - change (own run (set_emergencyCoolDownRef false w)) with (own run w).
    destruct (own run w); [left|right]; repeat split.
  - destruct (own run w); [left|right]; repeat split.
Qed.

Section Delays.

Variable Math_sin : float -> float.
Variable Math_pow : float -> float -> float.

(** A run of [loop] started by the timer of the loop effect: the delay it
    computes, the state in which its evolution step starts and the state in
    which the step ends. *)
Lemma tick_unfold o w :
  tick Math_sin Math_pow o w =
  let '(d, w0) := calculate_delay Math_sin Math_pow (timer_fired (rerender w)) in
  match (if negb (isPaused (react w)) then performEvolutionStep o w0
         else Completed w0) with
  | Completed w2 =>
      Completed (finish (Some (effectRuns w0)) (safeDelay_of d) w2)
  | Rejected => Rejected
  | Diverged => Diverged
  end.
Proof.
  unfold tick, tick_of, loop. cbn [fire fst snd timer_fired stateRef].
  rewrite rerender_stateRef.
  destruct (calculate_delay Math_sin Math_pow (timer_fired (rerender w)))
    as [d w0] eqn:Ed.
  destruct (calculate_delay_timers _ _ _ _ _ Ed) as (_ & _ & Hru & _).
  cbn [timer_fired effectRuns] in Hru. rewrite <- Hru. reflexivity.
Qed.

(** The state in which the evolution step of a tick starts. *)
Lemma tick_step_start w d w0 :
  calculate_delay Math_sin Math_pow (timer_fired (rerender w)) = (d, w0) ->
  stateRef w0 = react w /\
  nodes (react w0) = nodes (react w) /\
  links (react w0) = links (react w) /\
  logs (react w0) = logs (react w) /\
  localStorage w0 = localStorage w /\
  requests w0 = requests w.
Proof.
  intros Ed.
  destruct (calculate_delay_frame _ _ _ _ _ Ed)
    as (Hsr & Hn & Hl & Hlg & _ & _ & Hst & Hrq & _).
  destruct (rerender_frame w) as (Er & Es & _ & _ & Est & Erq & _).
  cbn [timer_fired stateRef react localStorage requests] in *.
  rewrite Hsr, Hn, Hl, Hlg, Hst, Hrq, Es, Er, Est, Erq. repeat split.
Qed.




(** X12: while the scheduler is paused a tick changes neither the store, nor the
    log, nor the storage slot, calls no synthesis, and still schedules the
    next run. *)
Theorem paused_tick_is_idle o w :
  isPaused (react w) = true ->
  exists w' d,
    tick Math_sin Math_pow o w = Completed w' /\
    timeoutId w' = Some d /\
    nodes (react w') = nodes (react w) /\
    links (react w') = links (react w) /\
    logs (react w') = logs (react w) /\
    localStorage w' = localStorage w /\
    requests w' = requests w /\
    isPaused (react w') = true /\
    emergencyCoolDownRef w' = false.
Proof.
  intros Hp. unfold tick, tick_of, loop. cbn [fire fst snd].
  destruct (rerender_frame w) as (Er & Es & _ & _ & Est & Erq & _).
  set (x := rerender w) in *.
  destruct (calculate_delay Math_sin Math_pow (timer_fired x)) as [d w0] eqn:Ed.
  destruct (calculate_delay_frame _ _ _ _ _ Ed)
    as (_ & Hn & Hl & Hlg & Hpa & _ & Hst & Hrq & _).
  destruct (calculate_delay_timers _ _ _ _ _ Ed) as (_ & _ & Hru & _).
  cbn [timer_fired stateRef react localStorage requests effectRuns] in *.
  rewrite Es, Hp. cbn [negb].
  eexists _, _. split; [reflexivity|].
  destruct (finish_frame (Some (effectRuns x)) (safeDelay_of d) w0)
    as (-> & _ & _ & -> & -> & -> & _).
  destruct (finish_timer (Some (effectRuns x)) (safeDelay_of d) w0)
    as [(_ & -> & _)|(Ho & _)].
  - rewrite Hn, Hl, Hlg, Hst, Hrq, Hpa, Er, Est, Erq. repeat split; auto.
  - cbn [own] in Ho. rewrite Hru, Nat.eqb_refl in Ho. discriminate.
Qed.

End Delays.

(** X23: a render that finds another global coherence than the render before
    runs the loop effect again.  The timer that the effect held is dropped
    and replaced by one set to the initial delay: 6000 ms with the flux mode
    off, and in flux mode the larger of 750 ms and 6000 ms divided by the
    multiplier, without the upper bound of 60000 ms that [loop] applies.
    The timers that no clean-up reaches and the suspended runs stay.  A
    render that finds the same coherence leaves the timers alone. *)
Theorem rerender_rearms w :
  let changed :=
    negb (Js.same_value (globalCoherence (nodes (stateRef w)))
                        (globalCoherence (nodes (react w)))) in
  stateRef (rerender w) = react w /\
  strayTimers (rerender w) = strayTimers w /\
  suspended (rerender w) = suspended w /\
  (changed = false ->
   timeoutId (rerender w) = timeoutId w /\
   effectRuns (rerender w) = effectRuns w) /\
  (changed = true ->
   effectRuns (rerender w) = S (effectRuns w) /\
   timeoutId (rerender w) =
     Some (if isFluxMode (react w)
           then Js.Math_max 750%float
                  (EVOLUTION_INTERVAL_MS / timeMultiplier (react w))%float
           else EVOLUTION_INTERVAL_MS)).
Proof.
  cbv zeta. unfold rerender. cbn [render stateRef].
  destruct (Js.same_value _ _); cbn; repeat split; intros; discriminate.
Qed.

Lemma rerender_rearms_witness :
  reachable (fun x => x) (fun _ _ => 0.001%float) (rerender trough) /\
  isFluxMode (react trough) = true /\
  exists d,
    timeoutId (rerender trough) = Some d /\
    (60000 <? d)%float = true.
Proof.
  split; [|split; [reflexivity|]].
  - apply reach_render.
    apply (reach_tick _ _ (toggleFlux (rerender fresh_start)) Current
             (birth_oracle "c1"));
      [apply reach_flux, reach_start|vm_compute; reflexivity
      |vm_compute; reflexivity|vm_compute; reflexivity].
  - destruct (rerender_rearms trough) as (_ & _ & _ & _ & Hc).
    destruct Hc as (_ & ->); [vm_compute; reflexivity|].
    eexists. split; [reflexivity|]. vm_compute. reflexivity.
Defined.



Lemma paused_tick_is_idle_witness :
  isPaused (react paused_in_flux) = true /\
  exists w',
    tick (fun x => x) (fun x _ => x) throwing_oracle paused_in_flux
      = Completed w' /\
    nodes (react w') = INITIAL_NODES /\ requests w' = [].
Proof.
  split; [reflexivity|].
  destruct (paused_tick_is_idle (fun x => x) (fun x _ => x) throwing_oracle
              paused_in_flux eq_refl)
    as (w' & d & Ht & _ & Hn & _ & _ & _ & Hr & _).
  exists w'. auto.
Defined.


(** ** The step always ends *)

Lemma resample_bound n a rs : forall b0 b,
  resample n a b0 rs = Some b -> b0 < n -> b < n.
Proof.
  induction rs as [|r rs IH]; intros b0 b H Hb; simpl in H;
    destruct ((b0 =? a)%nat && (1 <? n)%nat) eqn:E; try discriminate.
  - injection H as <-. exact Hb.
  - apply (IH _ _ H). apply Nat.mod_upper_bound. lia.
  - injection H as <-. exact Hb.
Qed.

Lemma resample_none n a rs : forall b0,
  resample n a b0 rs = None ->
  1 < n /\ b0 = a /\ Forall (fun r => r mod n = a) rs.
Proof.
  induction rs as [|r rs IH]; intros b0 H; simpl in H;
    destruct (b0 =? a)%nat eqn:E1; destruct (1 <? n)%nat eqn:E2;
    simpl in H; try discriminate;
    apply Nat.eqb_eq in E1; apply Nat.ltb_lt in E2.
  - auto.
  - destruct (IH _ H) as (_ & Hr & Hrs). auto.
Qed.

(** X14: the evolution step is never rejected: the entity to evict and the two
    parents always exist.  It completes, unless the population has two
    entities or more and every draw of the second parent falls on the first
    parent, in which case the resampling does not end. *)
Theorem step_completes_or_resamples o w :
  (exists w', performEvolutionStep o w = Completed w') \/
  (performEvolutionStep o w = Diverged /\
   exists n, 2 <= n /\
     Forall (fun r => r mod n = draw_parentA o mod n)
            (draw_parentB o :: redraws o)).
Proof.
  unfold performEvolutionStep, before_await.
  destruct (pruning_total o w) as (workingNodes & w1 & ->).
  destruct (length workingNodes <? 2)%nat eqn:Hlen; [left; eauto|].
  apply Nat.ltb_ge in Hlen.
  set (n := length workingNodes) in *.
  assert (Ha : draw_parentA o mod n < n) by (apply Nat.mod_upper_bound; lia).
  assert (Hb0 : draw_parentB o mod n < n) by (apply Nat.mod_upper_bound; lia).
  destruct (resample n _ _ _) as [b|] eqn:Hb.
  - apply resample_bound in Hb; [|exact Hb0].
    destruct (nth_error workingNodes (draw_parentA o mod n)) eqn:Ea;
      [|apply nth_error_None in Ea; fold n in Ea; lia].
    destruct (nth_error workingNodes b) eqn:Eb;
      [|apply nth_error_None in Eb; fold n in Eb; lia].
    left. eauto.
  - right. split; [reflexivity|]. exists n. split; [exact Hlen|].
    apply resample_none in Hb as (_ & Hb & Hrs). constructor; assumption.
Qed.

Lemma after_synthesis_requests o parentA parentB workingNodes r w :
  requests (after_synthesis o parentA parentB workingNodes r w) = requests w.
Proof.
  destruct r as [|child reasoning]; simpl; [reflexivity|].
  destruct (is_void child); [reflexivity|].
  destruct (resonant child), (significant child); simpl;
    unfold handleSave; try destruct (setItem_ok o); reflexivity.
Qed.

(** X15: a step calls the synthesis at most once, and a call names two different
    entities of the store, with the larger of their generations as the base
    generation. *)
Theorem request_names_two_entities o w w' :
  NoDup (map id (nodes (react w))) ->
  performEvolutionStep o (render w) = Completed w' ->
  requests w' = requests w \/
  exists r,
    requests w' = r :: requests w /\
    In (req_parentA r) (nodes (react w)) /\
    In (req_parentB r) (nodes (react w)) /\
    id (req_parentA r) <> id (req_parentB r) /\
    req_currentGen r =
      Z.max (generation (req_parentA r)) (generation (req_parentB r)).
Proof.
  intros Hnd Hstep. unfold performEvolutionStep, before_await in Hstep.
  destruct (pruning o (render w)) as [[workingNodes w1]|] eqn:Hp;
    [|discriminate].
  destruct (pruning_store o (render w) _ _ eq_refl Hp)
    as (Hwn & Hincl & _ & _ & Hbelow & Hfull).
  destruct (pruning_frame _ _ _ _ Hp) as (_ & _ & Hrq & _).
  cbn [render react requests] in *.
  destruct (length workingNodes <? 2)%nat eqn:Hlen.
  { injection Hstep as <-. left. exact Hrq. }
  apply Nat.ltb_ge in Hlen.
  destruct (resample _ _ _ _) as [b|] eqn:Hb; [|discriminate].
  apply resample_distinct in Hb; [|lia].
  destruct (nth_error workingNodes _) as [parentA|] eqn:Ea; [|discriminate].
  destruct (nth_error workingNodes b) as [parentB|] eqn:Eb; [|discriminate].
  injection Hstep as <-. right.
  exists {| req_parentA := parentA; req_parentB := parentB;
            req_currentGen :=
              Z.max (generation parentA) (generation parentB) |}.
  split.
  - unfold settle. rewrite after_synthesis_requests.
    destruct (awaited_frame o (calling o parentA parentB w1))
      as (_ & _ & _ & _ & -> & _).
    cbn. rewrite Hrq. reflexivity.
  - subst workingNodes. cbn.
    assert (Hnd1 : NoDup (map id (nodes (react w1)))).
    { destruct (Nat.lt_ge_cases (length (nodes (react w))) MAX_NODES) as [H|H].
      - destruct (Hbelow H) as [-> _]. exact Hnd.
      - destruct (Hfull H) as (v & _ & -> & _). apply ids_unique_filter, Hnd. }
    split; [apply Hincl, (nth_error_In _ _ Ea)|].
    split; [apply Hincl, (nth_error_In _ _ Eb)|].
    split; [|reflexivity].
    eapply distinct_positions; [exact Hnd1| |exact Ea|exact Eb].
    intros E. apply Hb. symmetry. exact E.
Qed.

Lemma request_names_two_entities_witness :
  exists w' r,
    performEvolutionStep throwing_oracle (render fresh_start) = Completed w' /\
    requests w' = [r] /\
    id (req_parentA r) <> id (req_parentB r).
Proof.
  exists (world_of (performEvolutionStep throwing_oracle (render fresh_start))).
  assert (Hs : performEvolutionStep throwing_oracle (render fresh_start) =
               Completed (world_of (performEvolutionStep throwing_oracle
                                      (render fresh_start))))
    by (vm_compute; reflexivity).
  assert (Hnd : NoDup (map id (nodes (react fresh_start))))
    by (apply distinct_NoDup; reflexivity).
  destruct (request_names_two_entities throwing_oracle fresh_start _ Hnd Hs)
    as [H|(r & Hr & _ & _ & Hne & _)].
  - vm_compute in H. discriminate.
  - exists r. auto.
Defined.

(** ** The render surface and the snapshot *)

Lemma find_node_present ns i :
  In i (map id ns) -> exists n, find_node ns i = Some n.
Proof.
  intros Hin. unfold find_node.
  destruct (find (fun n => id n =? i) (rev ns)) as [n|] eqn:E; [eauto|].
  exfalso. apply in_map_iff in Hin as (n & Hn & Hin).
  apply in_rev in Hin. pose proof (find_none _ _ E n Hin) as Hf.
  simpl in Hf. rewrite Hn, String.eqb_refl in Hf. discriminate.
Qed.

Lemma resolveLinks_total ns ls :
  (forall l, In l ls ->
     In (endpointId (source l)) (map id ns) /\
     In (endpointId (target l)) (map id ns)) ->
  exists ls', resolveLinks ns ls = Some ls' /\ Forall by_node ls'.
Proof.
  induction ls as [|l ls IH]; intros H; simpl; [eauto|].
  destruct IH as (ls' & -> & Hall).
  { intros l' Hl'. apply H. right. exact Hl'. }
  destruct (H l (or_introl eq_refl)) as [Hs Ht].
  assert (Hr : forall e, In (endpointId e) (map id ns) ->
                 exists n, resolve ns e = Some (ByNode n)).
  { intros [i|n] Hi; simpl; [|eauto].
    destruct (find_node_present ns i Hi) as (n & ->). simpl. eauto. }
  destruct (Hr _ Hs) as (a & Ea). destruct (Hr _ Ht) as (b & Eb).
  unfold resolveLink. rewrite Ea, Eb. eexists. split; [reflexivity|].
  constructor; [exact I|exact Hall].
Qed.

Lemma cleanLink_edge ls ls' :
  map edge ls = map edge ls' -> map cleanLink ls = map cleanLink ls'.
Proof.
  revert ls'. induction ls as [|l ls IH]; intros [|l' ls'] H;
    try discriminate; [reflexivity|].
  simpl in H. injection H as Hs Ht Hk Hty Hrest. simpl.
  rewrite (IH ls' Hrest). f_equal. unfold cleanLink.
  rewrite Hk, Hty. f_equal.
  - destruct (source l), (source l'); simpl in *; congruence.
  - destruct (target l), (target l'); simpl in *; congruence.
Qed.

Lemma find_node_absent ns i :
  ~ In i (map id ns) -> find_node ns i = None.
Proof.
  intros Hn. unfold find_node.
  destruct (find (fun n => id n =? i) (rev ns)) as [n|] eqn:E; [|reflexivity].
  apply find_some in E as [Hin E]. apply String.eqb_eq in E.
  exfalso. apply Hn. rewrite <- E. apply in_map. apply in_rev. exact Hin.
Qed.

Lemma resolveLinks_fails ns ls l i :
  In l ls -> source l = ById i \/ target l = ById i ->
  ~ In i (map id ns) ->
  resolveLinks ns ls = None.
Proof.
  intros Hin Hl Hi. induction ls as [|l' ls IH]; [destruct Hin|].
  simpl. destruct Hin as [->|Hin].
  - assert (E : resolveLink ns l = None).
    { unfold resolveLink. destruct Hl as [E|E]; rewrite E; simpl;
        rewrite (find_node_absent ns i Hi); simpl; [reflexivity|].
      destruct (resolve ns (source l)); reflexivity. }
    rewrite E. reflexivity.
  - rewrite (IH Hin). destruct (resolveLink ns l'); reflexivity.
Qed.

(** X19: the link resolution of the render surface goes through when every
    endpoint names an entity of the store: it leaves the entities and the
    edges, read by identifier, as they were, and every endpoint is a node
    object afterwards.  It throws when an endpoint is an identifier that no
    entity of the store has. *)
Theorem forceLink_needs_endpoints w :
  ((forall l, In l (links (react w)) ->
      In (endpointId (source l)) (map id (nodes (react w))) /\
      In (endpointId (target l)) (map id (nodes (react w)))) ->
   exists w',
     forceLink w = Some w' /\
     nodes (react w') = nodes (react w) /\
     map edge (links (react w')) = map edge (links (react w)) /\
     Forall by_node (links (react w'))) /\
  (forall l i,
     In l (links (react w)) -> source l = ById i \/ target l = ById i ->
     ~ In i (map id (nodes (react w))) ->
     forceLink w = None).
Proof.
  split.
  - intros He. unfold forceLink. rewrite rerender_react.
    destruct (resolveLinks_total (nodes (react w)) (links (react w)) He)
      as (ls & E & Hall).
    rewrite E. eexists. split; [reflexivity|].
    cbn [render setLinks update react with_nodes with_links nodes links].
    rewrite rerender_react.
    split; [reflexivity|].
    split; [apply (edge_resolveLinks _ _ _ E)|exact Hall].
  - intros l i Hin Hl Hi. unfold forceLink. rewrite rerender_react.
    rewrite (resolveLinks_fails _ _ l i Hin Hl Hi). reflexivity.
Qed.

(** After a load that fell into the [await] of a step, the store holds an
    edge from [c1], which it does not hold: the resolution throws. *)
Lemma forceLink_needs_endpoints_witness :
  (exists w', forceLink full_house = Some w' /\
              Forall by_node (links (react w'))) /\
  reachable (fun x => x) (fun x _ => x) loaded_while_awaiting /\
  forceLink loaded_while_awaiting = None.
Proof.
  split; [|split].
  - destruct (proj1 (forceLink_needs_endpoints full_house))
      as (w' & Hf & _ & _ & Hb).
    + assert (H : forallb (fun l =>
                    existsb (String.eqb (endpointId (source l)))
                            (map id (nodes (react full_house))) &&
                    existsb (String.eqb (endpointId (target l)))
                            (map id (nodes (react full_house))))
                    (links (react full_house)) = true)
        by (vm_compute; reflexivity).
      intros l Hl. rewrite forallb_forall in H. specialize (H l Hl).
      apply andb_prop in H as [Hs Ht].
      apply existsb_exists in Hs as (x & Hx & Ex).
      apply existsb_exists in Ht as (y & Hy & Ey).
      apply String.eqb_eq in Ex, Ey. subst x y. auto.
    + exists w'. auto.
  - apply loaded_while_awaiting_reachable.
  - apply (proj2 (forceLink_needs_endpoints loaded_while_awaiting)
             {| source := ById "c1"; target := ById "c2"; strength := 1;
                link_type := ancestry |} "c1").
    + vm_compute. left. reflexivity.
    + left. reflexivity.
    + intros H. vm_compute in H.
      repeat match goal with
             | H : _ \/ _ |- _ => destruct H as [H|H]
             end; try discriminate; exact H.
Defined.

(** X20: what a save writes does not depend on whether the render surface has
    resolved the links of the store. *)
Theorem snapshot_ignores_resolution silent ok st w w' :
  forceLink w = Some w' ->
  localStorage (handleSave silent ok st w') =
  localStorage (handleSave silent ok st (render w)).
Proof.
  unfold forceLink. rewrite rerender_react.
  destruct (resolveLinks _ _) as [ls|] eqn:E; [|discriminate].
  intros H. injection H as <-.
  apply edge_resolveLinks in E. apply cleanLink_edge in E.
  unfold handleSave.
  destruct (rerender_cases w) as [-> | ->]; destruct ok, silent; cbn;
    rewrite ?E; reflexivity.
Qed.

Lemma snapshot_ignores_resolution_witness :
  exists w',
    forceLink full_house = Some w' /\
    localStorage (handleSave true true (no_stamp 0) w') =
    localStorage (handleSave true true (no_stamp 0) (render full_house)).
Proof.
  destruct (forceLink full_house) as [w'|] eqn:E.
  - exists w'. split; [reflexivity|].
    apply (snapshot_ignores_resolution true true (no_stamp 0) full_house w' E).
  - vm_compute in E. discriminate.
Defined.

(** ** The log and the client *)

(** X18: a write to the log keeps the last fifty entries of the buffer, in
    order, and puts the new entry after them: fifty-one entries at most. *)
Theorem addLog_keeps_last_fifty st msg ty w :
  let w' := addLog st msg ty w in
  exists dropped kept_,
    logs (react w) = dropped ++ kept_ /\
    length kept_ = Nat.min 50 (length (logs (react w))) /\
    logs (react w') =
      kept_ ++ [ {| log_id := fst st; timestamp := snd st;
                    message := msg; log_type := ty |} ] /\
    length (logs (react w')) <= 51 /\
    nodes (react w') = nodes (react w) /\
    links (react w') = links (react w).
Proof.
  cbv zeta.
  exists (firstn (length (logs (react w)) - 50) (logs (react w))),
         (Js.slice_last 50 (logs (react w))).
  split; [unfold Js.slice_last; symmetry; apply firstn_skipn|].
  split; [apply slice_last_length|].
  split; [apply addLog_logs|].
  split; [rewrite addLog_length; lia|].
  split; reflexivity.
Qed.

(** X21: the client throws only when the API key is missing.  With a key it
    always answers with an entity carrying the generated identifier, the
    generation after the base one and the two parents; when the service
    fails or its text cannot be parsed, that entity is the VOID "Vacuum
    Resonator". *)
Theorem evolveThinkers_throws_only_without_key o parentA parentB currentGen :
  (apiKey o = false ->
   evolveThinkers o parentA parentB currentGen = Throws) /\
  (apiKey o = true ->
   exists child reasoning,
     evolveThinkers o parentA parentB currentGen = Returns child reasoning /\
     id child = generatedId o /\
     generation child = (currentGen + 1)%Z /\
     parents child = Some [id parentA; id parentB] /\
     match apiReply o with
     | ApiError | ApiResponse InvalidJson =>
         is_void child = true /\
         name child = Some "Vacuum Resonator" /\
         reasoning = Some "Signal purity lost. Sanctuary Declared."
     | _ => True
     end).
Proof.
  unfold evolveThinkers. split; intros ->; cbn [negb]; [reflexivity|].
  destruct (apiReply o) as [|[| |d]]; cbn; eexists _, _; repeat split.
Qed.

(** Whatever the synthesis gave, the step that awaited it leaves at most
    fifty-one entries in the log. *)
Lemma after_synthesis_log_bounded o parentA parentB workingNodes r w :
  length (logs (react (after_synthesis o parentA parentB workingNodes r w)))
    <= 51.
Proof.
  destruct r as [|child reasoning]; simpl.
  - change (length (logs (react (addLog (stamp o 6)
              "Synthesis disrupted. Re-calibrating coherence." conflict w)))
            <= 51).
    rewrite addLog_length. lia.
  - destruct (is_void child).
    + rewrite addLog_length. lia.
    + destruct (resonant child), (significant child); cbn [setLinks setNodes
        update react with_links with_nodes logs];
        rewrite ?handleSave_silent_react, addLog_length; lia.
Qed.

(** X17: a step either leaves the log as it found it (nothing was evicted and no
    synthesis was attempted) or leaves at most fifty-one entries in it. *)
Theorem step_log_bounded o w w' :
  performEvolutionStep o w = Completed w' ->
  logs (react w') = logs (react w) \/ length (logs (react w')) <= 51.
Proof.
  unfold performEvolutionStep, before_await.
  destruct (pruning o w) as [[workingNodes w1]|] eqn:Hp; [|discriminate].
  destruct (length workingNodes <? 2)%nat.
  - intros H. injection H as <-.
    destruct (Nat.lt_ge_cases (length (nodes (stateRef w))) MAX_NODES) as [H|H].
    + rewrite (pruning_below o w H) in Hp. injection Hp as _ <-. left.
      reflexivity.
    + destruct (sorted_first o (nodes (stateRef w))) as [v|] eqn:Es.
      * destruct (pruning_full o w v H Es) as (w2 & Hp2 & _ & _ & Hl & _).
        rewrite Hp in Hp2. injection Hp2 as _ <-. right.
        rewrite Hl, length_app, slice_last_length. cbn [length]. lia.
      * unfold pruning in Hp. rewrite Es in Hp.
        apply Nat.leb_le in H. rewrite H in Hp. discriminate.
  - destruct (resample _ _ _ _) as [b|]; [|discriminate].
    destruct (nth_error workingNodes _) as [parentA|]; [|discriminate].
    destruct (nth_error workingNodes b) as [parentB|]; [|discriminate].
    intros H. injection H as <-. right. apply after_synthesis_log_bounded.
Qed.

Lemma step_log_bounded_witness :
  exists w',
    performEvolutionStep throwing_oracle (render fresh_start) = Completed w' /\
    length (logs (react w')) <= 51.
Proof.
  exists (world_of (performEvolutionStep throwing_oracle (render fresh_start))).
  assert (Hs : performEvolutionStep throwing_oracle (render fresh_start) =
               Completed (world_of (performEvolutionStep throwing_oracle
                                      (render fresh_start))))
    by (vm_compute; reflexivity).
  split; [exact Hs|].
  destruct (step_log_bounded _ _ _ Hs) as [H|H]; [|exact H].
  vm_compute in H. discriminate.
Defined.

(** ** A birth *)


Section Birth.

Variable Math_sin : float -> float.
Variable Math_pow : float -> float -> float.



End Birth.



(** ** Edge cases of the start and of the step *)

(** X8: at the start the stored object is read field by field: an object that
    has links but no nodes gives the seeds together with the stored links,
    although [handleLoad] rejects the same object as corrupted and leaves
    the store alone. *)
Theorem mount_reads_fields_separately s ls now st w :
  s_nodes s = None -> s_links s = Some ls ->
  localStorage w = Some (Stored s) ->
  nodes (react (mount (Some (Stored s)) now)) = INITIAL_NODES /\
  links (react (mount (Some (Stored s)) now)) = ls /\
  nodes (react (handleLoad st w)) = nodes (react w) /\
  links (react (handleLoad st w)) = links (react w) /\
  exists e, logs (react (handleLoad st w)) =
              Js.slice_last 50 (logs (react w)) ++ [e] /\
            message e = "Error: Corrupted memory core." /\
            log_type e = conflict.
Proof.
  intros Hn Hl Hs. unfold mount, handleLoad. rewrite Hs. cbn.
  rewrite Hn, Hl. cbn. repeat split. eexists. repeat split.
Qed.

(** X13: with fewer than two entities in the store a tick of the running
    scheduler does nothing but schedule the next run: no eviction, no
    synthesis, no log entry. *)
Theorem lonely_tick_is_idle Math_sin Math_pow o w :
  isPaused (react w) = false ->
  length (nodes (react w)) < 2 ->
  exists w' d,
    tick Math_sin Math_pow o w = Completed w' /\
    timeoutId w' = Some d /\
    nodes (react w') = nodes (react w) /\
    links (react w') = links (react w) /\
    logs (react w') = logs (react w) /\
    localStorage w' = localStorage w /\
    requests w' = requests w.
Proof.
  intros Hrun Hlen. rewrite tick_unfold.
  destruct (calculate_delay Math_sin Math_pow (timer_fired (rerender w)))
    as [x w0] eqn:Ed.
  destruct (tick_step_start _ _ _ _ _ Ed) as (Hsr & Hn & Hl & Hlg & Hst & Hrq).
  rewrite Hrun. cbn [negb].
  assert (Hp : pruning o w0 = Some (nodes (react w), w0)).
  { rewrite <- (f_equal nodes Hsr). apply pruning_below.
    rewrite Hsr. unfold MAX_NODES. lia. }
  unfold performEvolutionStep, before_await. rewrite Hp.
  replace (length (nodes (react w)) <? 2)%nat with true
    by (symmetry; apply Nat.ltb_lt, Hlen).
  eexists _, _. split; [reflexivity|].
  destruct (finish_frame (Some (effectRuns w0)) (safeDelay_of x) w0)
    as (-> & _ & _ & _ & -> & -> & _).
  destruct (finish_timer (Some (effectRuns w0)) (safeDelay_of x) w0)
    as [(_ & -> & _)|(Ho & _)].
  - rewrite Hn, Hl, Hlg, Hst, Hrq. repeat split.
  - cbn [own] in Ho. rewrite Nat.eqb_refl in Ho. discriminate.
Qed.


Lemma mount_reads_fields_separately_witness :
  nodes (react (mount (Some (Stored linkless_object)) 0)) = INITIAL_NODES /\
  nodes (react (handleLoad (no_stamp 0) odd_slot)) = INITIAL_NODES.
Proof.
  destruct (mount_reads_fields_separately linkless_object [] 0 (no_stamp 0)
              odd_slot eq_refl eq_refl eq_refl) as (Hm & _ & Hl & _).
  split; [exact Hm|exact Hl].
Defined.

Lemma lonely_tick_is_idle_witness :
  length (nodes (react lonely)) = 1 /\
  exists w',
    tick (fun x => x) (fun x _ => x) throwing_oracle lonely = Completed w' /\
    requests w' = [] /\ logs (react w') = logs (react lonely).
Proof.
  split; [reflexivity|].
  destruct (lonely_tick_is_idle (fun x => x) (fun x _ => x) throwing_oracle
              lonely eq_refl) as (w' & d & Ht & _ & _ & _ & Hl & _ & Hr).
  - simpl. lia.
  - exists w'. auto.
Defined.
